(** * Gapbuffer: a shallow embedding of the gap-buffer header and its properties

    The C++ class [Gapbuffer] keeps four raw pointers into one heap block.
    The embedding keeps them as addresses ([Z]) into a flat byte memory
    together with the table of live allocations, so that what the code does
    with a pointer into another block (see [reserve]) can be followed step
    by step.  Values of type [size_t] are reduced modulo [2^64], values of
    type [unsigned int] modulo [2^32].  A C++ exception is the outcome
    [Throw]; a value-returning function whose body ends without [return] has
    the outcome [Undefined]. *)

From Stdlib Require Import ZArith Ascii String List Lia.
From stdpp Require Import base gmap.
Import ListNotations.

Local Open Scope Z_scope.

(** ** Machine integers *)

Definition wrap64 (z : Z) : Z := z mod 2 ^ 64.
Definition wrap32 (z : Z) : Z := z mod 2 ^ 32.
(** [int]: two's complement on 32 bits. *)
Definition wrap_int (z : Z) : Z := (z + 2 ^ 31) mod 2 ^ 32 - 2 ^ 31.

(** ** Memory and the allocator *)

Definition addr := Z.
Definition nullptr : addr := 0.

Record heap := mkHeap {
  cells : addr -> ascii;      (* contents of every byte *)
  allocs : gmap Z Z;          (* live blocks: base address to length *)
  brk : addr                  (* next address the allocator hands out *)
}.

Definition load (h : heap) (p : addr) : ascii := cells h p.

Definition write (p : addr) (c : ascii) (m : addr -> ascii) : addr -> ascii :=
  fun q => if q =? p then c else m q.

Definition store (p : addr) (c : ascii) (h : heap) : heap :=
  mkHeap (write p c (cells h)) (allocs h) (brk h).

(** [std::allocator<char>::allocate(n)]: a fresh block of [n] bytes whose
    contents are whatever the memory held. *)
Definition allocate (n : Z) (h : heap) : addr * heap :=
  (brk h, mkHeap (cells h) (<[brk h := n]> (allocs h)) (brk h + Z.max n 1)).

(** [std::allocator<char>::deallocate(p, n)]. *)
Definition deallocate (p : addr) (n : Z) (h : heap) : heap :=
  mkHeap (cells h) (delete p (allocs h)) (brk h).

(** [char] has a trivial destructor: destroying it changes nothing. *)
Definition destroy_at (p : addr) (h : heap) : heap := h.
Definition destroy_n (p : addr) (n : Z) (h : heap) : heap := h.

Fixpoint fill_cells (n : nat) (p : addr) (c : ascii) (m : addr -> ascii)
  : addr -> ascii :=
  match n with
  | O => m
  | S n' => fill_cells n' (p + 1) c (write p c m)
  end.

(** [std::uninitialized_value_construct_n(first, n)]: value-initialises
    [n] chars (to zero) from [first] on and returns the end of the range. *)
Definition uninitialized_value_construct_n (first : addr) (n : Z) (h : heap)
  : addr * heap :=
  (first + Z.max 0 n,
   mkHeap (fill_cells (Z.to_nat n) first Ascii.zero (cells h)) (allocs h) (brk h)).

Fixpoint copy_cells (n : nat) (src dst : addr) (m : addr -> ascii)
  : addr -> ascii :=
  match n with
  | O => m
  | S n' => copy_cells n' (src + 1) (dst + 1) (write dst (m src) m)
  end.

(** [std::uninitialized_move_n(first, count, d_first)] on chars held in the
    heap: copies front to back while [count > 0] and returns both ends. *)
Definition uninitialized_move_n (first : addr) (count : Z) (d_first : addr)
  (h : heap) : (addr * addr) * heap :=
  ((first + Z.max 0 count, d_first + Z.max 0 count),
   mkHeap (copy_cells (Z.to_nat count) first d_first (cells h)) (allocs h) (brk h)).

(** [std::uninitialized_copy_n(first, count, d_first)]: returns the end of
    the destination range. *)
Definition uninitialized_copy_n (first : addr) (count : Z) (d_first : addr)
  (h : heap) : addr * heap :=
  (d_first + Z.max 0 count,
   mkHeap (copy_cells (Z.to_nat count) first d_first (cells h)) (allocs h) (brk h)).

Fixpoint write_list (l : list ascii) (p : addr) (m : addr -> ascii)
  : addr -> ascii :=
  match l with
  | [] => m
  | c :: l' => write_list l' (p + 1) (write p c m)
  end.

(** [std::uninitialized_move_n] whose source is a range outside the heap
    (the characters of a [string_view] or of an initializer list). *)
Definition uninitialized_move_n_from (src : list ascii) (count : Z)
  (d_first : addr) (h : heap) : addr * heap :=
  (d_first + Z.max 0 count,
   mkHeap (write_list (firstn (Z.to_nat count) src) d_first (cells h))
          (allocs h) (brk h)).

Fixpoint read_cells (n : nat) (p : addr) (m : addr -> ascii) : list ascii :=
  match n with
  | O => []
  | S n' => m p :: read_cells n' (p + 1) m
  end.

(** ** Outcomes *)

Inductive exn :=
| out_of_range (what : string)
| runtime_error (what : string).

Inductive outcome (A : Type) :=
| Ok (a : A)
| Throw (e : exn)
| Undefined      (* the end of a value-returning function was reached *)
| OutOfFuel.     (* the loop did not finish within the given number of rounds *)
Arguments Ok {A} a.
Arguments Throw {A} e.
Arguments Undefined {A}.
Arguments OutOfFuel {A}.

(** ** The class *)

Module Gapbuffer.

Record t := mk {
  bufferStart : addr;
  gapStart : addr;     (* One space past the last value in the left half *)
  gapEnd : addr;       (* Pointing to the first value in the right half *)
  bufferEnd : addr     (* One space past the last value in the right half *)
}.

(** An object together with the memory it lives in. *)
Definition state := (t * heap)%type.

Definition set_gapStart (p : addr) (g : t) : t :=
  mk (bufferStart g) p (gapEnd g) (bufferEnd g).
Definition set_gapEnd (p : addr) (g : t) : t :=
  mk (bufferStart g) (gapStart g) p (bufferEnd g).

(** *** Capacity *)

Definition empty (g : t) : bool := bufferStart g =? gapStart g.
Definition size (g : t) : Z :=
  wrap64 (bufferEnd g - bufferStart g - (gapEnd g - gapStart g)).
Definition gap_size (g : t) : Z := wrap64 (gapEnd g - gapStart g).
Definition capacity (g : t) : Z := wrap64 (bufferEnd g - bufferStart g).

(** *** Constructors *)

(** [Gapbuffer()] *)
Definition ctor_default (h : heap) : state :=
  let '(bufferStart, h) := allocate 32 h in
  let '(bufferEnd, h) := uninitialized_value_construct_n bufferStart 32 h in
  (mk bufferStart bufferStart bufferEnd bufferEnd, h).

(** [Gapbuffer(const size_type length)] *)
Definition ctor_length (length : Z) (h : heap) : state :=
  let '(bufferStart, h) := allocate length h in
  let '(bufferEnd, h) := uninitialized_value_construct_n bufferStart length h in
  (mk bufferStart bufferStart bufferEnd bufferEnd, h).

(** [Gapbuffer(std::string_view str)] *)
Definition ctor_string_view (str : list ascii) (h : heap) : state :=
  let str_size := Z.of_nat (length str) in
  let '(bufferStart, h) := allocate (wrap64 (str_size + 8)) h in
  let '(final_destination, h) :=
    uninitialized_move_n_from str str_size bufferStart h in
  let gapStart := final_destination in
  let gapEnd := gapStart + 8 in
  (mk bufferStart gapStart gapEnd gapEnd, h).

(** [Gapbuffer(InputIt begin, InputIt end)]; [len] is an [unsigned int]. *)
Definition ctor_range (rng : list ascii) (h : heap) : state :=
  let len := wrap32 (Z.of_nat (length rng)) in
  let '(bufferStart, h) := allocate (wrap32 (len + 8)) h in
  let '(final_destination, h) :=
    uninitialized_move_n_from rng len bufferStart h in
  let gapStart := final_destination in
  let gapEnd := gapStart + 8 in
  (mk bufferStart gapStart gapEnd gapEnd, h).

(** [Gapbuffer(std::initializer_list<char> lst)]: the block has room for
    the elements only. *)
Definition ctor_initializer_list (lst : list ascii) (h : heap) : state :=
  let lst_size := Z.of_nat (length lst) in
  let '(bufferStart, h) := allocate lst_size h in
  let '(final_destination, h) :=
    uninitialized_move_n_from lst lst_size bufferStart h in
  let gapStart := final_destination in
  let gapEnd := gapStart + 8 in
  (mk bufferStart gapStart gapEnd gapEnd, h).

(** Copy constructor; the result is the new object. *)
Definition ctor_copy (other : t) (h : heap) : state :=
  let '(bufferStart, h) := allocate (capacity other) h in
  let '(gapStart, h) :=
    uninitialized_copy_n (Gapbuffer.bufferStart other) (capacity other)
                         bufferStart h in
  let gapEnd := bufferStart + (Gapbuffer.gapEnd other - Gapbuffer.bufferStart other) in
  let bufferEnd := bufferStart + capacity other in
  (mk bufferStart gapStart gapEnd bufferEnd, h).

(** Move constructor: the new object, the source after the call, the heap. *)
Definition ctor_move (other : t) (h : heap) : t * t * heap :=
  let this := mk (bufferStart other) (gapStart other) (gapEnd other)
                 (bufferEnd other) in
  let h := deallocate (bufferStart other) (capacity other) h in
  (this, other, h).

(** Destructor. *)
Definition dtor (g : t) (h : heap) : heap :=
  let h := destroy_n (bufferStart g) (capacity g) h in
  deallocate (bufferStart g) (capacity g) h.


(** *** Element access *)

(** [at(loc)]: the reference it returns is the address of the element. *)
Definition at_ (loc : Z) (g : t) : outcome addr :=
  if size g <=? loc then Throw (out_of_range "index out of range")
  else if loc <? wrap64 (gapStart g - bufferStart g) then
    (* Before the gap *)
    Ok (bufferStart g + loc)
  else
    (* After the gap *)
    Ok (gapEnd g + wrap64 (loc - (gapStart g - bufferStart g))).

(** [operator[]]: the same translation without the check. *)
Definition subscript (loc : Z) (g : t) : addr :=
  if loc <? wrap64 (gapStart g - bufferStart g) then bufferStart g + loc
  else gapEnd g + wrap64 (loc - (gapStart g - bufferStart g)).

Definition front (g : t) : outcome addr :=
  if (gapStart g =? bufferStart g) && (gapEnd g =? bufferEnd g) then
    Throw (out_of_range "Accessing front element in an empty Gapvector")
  else if bufferStart g =? gapStart g then Ok (gapEnd g)
  else Ok (bufferStart g).

Definition back (g : t) : outcome addr :=
  if (gapStart g =? bufferStart g) && (gapEnd g =? bufferEnd g) then
    Throw (out_of_range "Accessing back element in an empty Gapvector")
  else if bufferEnd g =? gapEnd g then Ok (gapStart g - 1)
  else Ok (bufferEnd g - 1).

(** [to_str()]: [std::string::append(const char*, size_type)] twice. *)
Definition to_str (g : t) (h : heap) : list ascii :=
  read_cells (Z.to_nat (wrap64 (gapStart g - bufferStart g)))
             (bufferStart g) (cells h)
  ++ read_cells (Z.to_nat (wrap64 (bufferEnd g - gapEnd g)))
                (gapEnd g) (cells h).

(** [operator==] compares the sizes, then the strings. *)
Definition equal (a b : t) (h : heap) : bool :=
  if negb (size a =? size b) then false
  else if negb (bool_decide (to_str a h = to_str b h)) then false
  else true.

(** *** Iterators *)

Record IteratorTemplate := Iterator { ptr : addr; gb : t }.

(** [operator*] *)
Definition iter_deref (it : IteratorTemplate) (h : heap) : ascii :=
  load h (ptr it).

(** The defaulted comparison looks at [ptr], then at [gb].  [gb] points to
    the owning buffer, which is kept here as the owner's four pointers: the
    iterators compared by one call all belong to [this]. *)
Definition iter_eqb (a b : IteratorTemplate) : bool :=
  (ptr a =? ptr b)
  && (bufferStart (gb a) =? bufferStart (gb b))
  && (gapStart (gb a) =? gapStart (gb b))
  && (gapEnd (gb a) =? gapEnd (gb b))
  && (bufferEnd (gb a) =? bufferEnd (gb b)).

(** The arithmetic operators all have the body [{}]: nothing is assigned
    and no value is returned.  Each is given as the iterator after the call
    (where the operator is not [const]) and the outcome of the call. *)

(** [IteratorTemplate& operator++() {}] *)
Definition iter_pre_inc (it : IteratorTemplate)
  : IteratorTemplate * outcome IteratorTemplate := (it, Undefined).
(** [IteratorTemplate operator++(int) {}] *)
Definition iter_post_inc (it : IteratorTemplate)
  : IteratorTemplate * outcome IteratorTemplate := (it, Undefined).
(** [IteratorTemplate& operator--() {}] *)
Definition iter_pre_dec (it : IteratorTemplate)
  : IteratorTemplate * outcome IteratorTemplate := (it, Undefined).
(** [IteratorTemplate operator--(int) {}] *)
Definition iter_post_dec (it : IteratorTemplate)
  : IteratorTemplate * outcome IteratorTemplate := (it, Undefined).
(** [IteratorTemplate operator+(const difference_type other) const {}] *)
Definition iter_plus (it : IteratorTemplate) (n : Z)
  : outcome IteratorTemplate := Undefined.
(** [IteratorTemplate operator-(const difference_type other) const {}] *)
Definition iter_minus (it : IteratorTemplate) (n : Z)
  : outcome IteratorTemplate := Undefined.
(** [difference_type operator-(const IteratorTemplate& other) const {}] *)
Definition iter_diff (it other : IteratorTemplate) : outcome Z := Undefined.
(** [IteratorTemplate& operator+=(difference_type n) {}] *)
Definition iter_add_assign (it : IteratorTemplate) (n : Z)
  : IteratorTemplate * outcome IteratorTemplate := (it, Undefined).
(** [IteratorTemplate& operator-=(difference_type n) {}] *)
Definition iter_sub_assign (it : IteratorTemplate) (n : Z)
  : IteratorTemplate * outcome IteratorTemplate := (it, Undefined).

Definition begin_ (g : t) : IteratorTemplate := Iterator (bufferStart g) g.
Definition end_ (g : t) : IteratorTemplate := Iterator (bufferEnd g) g.

(** [std::distance] on random-access iterators is [last - first]. *)
Definition distance (first last : IteratorTemplate) : outcome Z :=
  iter_diff last first.

(** *** Queries *)

(** The loop of [find]: [it] and [tracking_count] are its variables. *)
Fixpoint find_loop (fuel : nat) (g : t) (h : heap) (c : ascii) (count : Z)
  (it : IteratorTemplate) (tracking_count : Z) : outcome Z :=
  match fuel with
  | O => OutOfFuel
  | S fuel' =>
    if iter_eqb it (end_ g) then Ok (-1)
    else
      let hit := Ascii.eqb (iter_deref it h) c in
      let tracking_count :=
        if hit then wrap_int (tracking_count + 1) else tracking_count in
      if hit && (tracking_count =? count) then
        match distance (begin_ g) it with
        | Ok d => Ok (wrap_int d)
        | Throw e => Throw e
        | Undefined => Undefined
        | OutOfFuel => OutOfFuel
        end
      else
        let '(it', r) := iter_pre_inc it in
        match r with
        | Ok _ => find_loop fuel' g h c count it' tracking_count
        | Throw e => Throw e
        | Undefined => Undefined
        | OutOfFuel => OutOfFuel
        end
  end.

(** [int find(char c, int count = 1) const] *)
Definition find (fuel : nat) (c : ascii) (count : Z) (g : t) (h : heap)
  : outcome Z :=
  if count =? 0 then Ok 0
  else find_loop fuel g h c count (begin_ g) 0.

(** *** Growth *)

Definition reserve (new_cap : Z) (s : state) : state :=
  let '(g, h) := s in
  if capacity g <? new_cap then
    let '(new_mem, h) := allocate new_cap h in
    let '(new_end, h) :=
      uninitialized_value_construct_n (bufferStart g) new_cap h in
    let '((_, lhs_buf), h) :=
      uninitialized_move_n (bufferStart g) (gapStart g - bufferStart g)
                           new_mem h in
    let g := set_gapStart lhs_buf g in
    let rhs_size := wrap64 (bufferEnd g - gapEnd g) in
    let '(_, h) :=
      uninitialized_move_n (gapEnd g) rhs_size (new_end - rhs_size) h in
    let bufferStart := new_mem in
    let bufferEnd := new_end in
    let gapStart := lhs_buf in
    let gapEnd := bufferEnd - rhs_size in
    (mk bufferStart gapStart gapEnd bufferEnd, h)
  else s.

(** *** Modifiers *)

Definition clear (s : state) : state :=
  let '(g, h) := s in
  let h := destroy_n (bufferStart g) (capacity g) h in
  (mk (bufferStart g) (bufferStart g) (bufferEnd g) (bufferEnd g), h).

Definition push_back (value : ascii) (s : state) : state :=
  let '(g, h) := s in
  let h := store (gapStart g) value h in
  let g := set_gapStart (gapStart g + 1) g in
  if gapStart g =? gapEnd g then reserve (wrap64 (capacity g * 2)) (g, h)
  else (g, h).

Definition insert (value : list ascii) (s : state) : state :=
  fold_left (fun s c => push_back c s) value s.

(** [pop_back()]: the outcome and the state the call leaves behind. *)
Definition pop_back (s : state) : outcome ascii * state :=
  let '(g, h) := s in
  if gapStart g =? bufferStart g then
    (Throw (out_of_range "Buffer is empty"), s)
  else
    let ret := load h (gapStart g - 1) in
    let h := destroy_at (gapStart g) h in
    let g := set_gapStart (gapStart g - 1) g in
    (Ok ret, (g, h)).

(** The loop of [erase]: [i] is an [unsigned int], [count] a [size_type]. *)
Fixpoint erase_loop (fuel : nat) (count i : Z) (ret : list ascii) (s : state)
  : outcome (list ascii) * state :=
  match fuel with
  | O => (OutOfFuel, s)
  | S fuel' =>
    if i <? count then
      match pop_back s with
      | (Ok c, s') => erase_loop fuel' count (wrap32 (i + 1)) (ret ++ [c]) s'
      | (Throw e, s') => (Throw e, s')
      | (Undefined, s') => (Undefined, s')
      | (OutOfFuel, s') => (OutOfFuel, s')
      end
    else (Ok ret, s)
  end.

Definition erase (fuel : nat) (count : Z) (s : state)
  : outcome (list ascii) * state :=
  erase_loop fuel count 0 [] s.

Definition advance (s : state) : state :=
  let '(g, h) := s in
  let '(c, h) :=
    if gapEnd g <? bufferEnd g then
      (Some (load h (gapEnd g)), destroy_at (gapEnd g) h)
    else (None, h) in
  let g := set_gapEnd (gapEnd g + 1) g in
  let h := match c with Some v => store (gapStart g) v h | None => h end in
  let g := set_gapStart (gapStart g + 1) g in
  (g, h).

Definition retreat (s : state) : state :=
  let '(g, h) := s in
  let g := set_gapStart (gapStart g - 1) g in
  let '(c, h) :=
    if bufferStart g <? gapStart g then
      (Some (load h (gapStart g)), destroy_at (gapStart g) h)
    else (None, h) in
  let g := set_gapEnd (gapEnd g - 1) g in
  let h := match c with Some v => store (gapEnd g) v h | None => h end in
  (g, h).

(** *** Assignment between two objects *)

(** Objects are kept in a store under their identity, so that
    [this != &other] can be decided. *)
Record world := mkWorld { objs : gmap nat t; hp : heap }.

(** Copy assignment. *)
Definition assign_copy (this other : nat) (w : world) : world :=
  match objs w !! this, objs w !! other with
  | Some _, Some o =>
    if bool_decide (this <> other) then
      let '(bufferStart, h) := allocate (capacity o) (hp w) in
      let '(gapStart, h) :=
        uninitialized_copy_n (Gapbuffer.bufferStart o) (capacity o)
                             bufferStart h in
      let gapEnd := bufferStart + (Gapbuffer.gapEnd o - Gapbuffer.bufferStart o) in
      let bufferEnd := bufferStart + capacity o in
      mkWorld (<[this := mk bufferStart gapStart gapEnd bufferEnd]> (objs w)) h
    else w
  | _, _ => w
  end.

(** Move assignment: [std::exchange(other.x, {})] hands over each pointer
    and leaves a null pointer behind. *)
Definition assign_move (this other : nat) (w : world) : world :=
  match objs w !! this, objs w !! other with
  | Some a, Some o =>
    if bool_decide (this <> other) then
      let h := destroy_n (bufferStart a) (capacity a) (hp w) in
      let h := deallocate (bufferStart a) (capacity a) h in
      let a' := mk (bufferStart o) (gapStart o) (gapEnd o) (bufferEnd o) in
      let o' := mk nullptr nullptr nullptr nullptr in
      mkWorld (<[other := o']> (<[this := a']> (objs w))) h
    else w
  | _, _ => w
  end.

(** Move construction of a new object [this] from the stored [other]. *)
Definition construct_move (this other : nat) (w : world) : world :=
  match objs w !! other with
  | Some o =>
    let '(a, o', h) := ctor_move o (hp w) in
    mkWorld (<[this := a]> (<[other := o']> (objs w))) h
  | None => w
  end.

(** *** Output *)

(** The loop of [operator<<] over the physical slots, [n] of them from [p]
    on: a slot with [gapStart <= p <= gapEnd] is shown as a blank. *)
Fixpoint print_slots (n : nat) (p : addr) (g : t) (h : heap) : list ascii :=
  match n with
  | O => []
  | S n' =>
    (if (gapStart g <=? p) && (p <=? gapEnd g) then " "%char else load h p)
      :: print_slots n' (p + 1) g h
  end.

(** [operator<<]: the characters sent to the stream. *)
Definition print (g : t) (h : heap) : list ascii :=
  "["%char
    :: print_slots (Z.to_nat (bufferEnd g - bufferStart g)) (bufferStart g) g h
    ++ ["]"%char].

(** *** Reverse iterators *)

(** [std::reverse_iterator] wraps the forward iterator it starts from and
    compares by it. *)
Record reverse_iterator := Reverse { current : IteratorTemplate }.

Definition reverse_eqb (a b : reverse_iterator) : bool :=
  iter_eqb (current a) (current b).

Definition cbegin (g : t) : IteratorTemplate := Iterator (bufferStart g) g.
Definition cend (g : t) : IteratorTemplate := Iterator (bufferEnd g) g.

Definition rbegin (g : t) : reverse_iterator :=
  Reverse (Iterator (if gapEnd g =? bufferEnd g then gapStart g
                     else bufferEnd g) g).
Definition rend (g : t) : reverse_iterator :=
  Reverse (Iterator (if gapStart g =? bufferStart g then gapEnd g
                     else bufferStart g) g).
Definition crbegin (g : t) : reverse_iterator := Reverse (cbegin g).
Definition crend (g : t) : reverse_iterator :=
  Reverse (Iterator (if gapStart g =? bufferStart g then gapEnd g
                     else bufferStart g) g).

(** *** Lines *)

#[global] Instance outcome_bind : MBind outcome :=
  fun A B f m =>
    match m with
    | Ok a => f a
    | Throw e => Throw e
    | Undefined => Undefined
    | OutOfFuel => OutOfFuel
    end.

Definition newline : ascii := "010"%char.

(** [IteratorTemplate operator-(const int val) {}] *)
Definition iter_minus_int (it : IteratorTemplate) (val : Z)
  : outcome IteratorTemplate := Undefined.

(** [std::next(it, n)] on a random-access iterator: a copy of [it] moved
    with [+=]. *)
Definition next (it : IteratorTemplate) (n : Z) : outcome IteratorTemplate :=
  let '(it', r) := iter_add_assign it n in
  _ ← r; Ok it'.

(** The first loop of [line]: the value of [line_start] when it ends. *)
Fixpoint line_start_loop (fuel : nat) (g : t) (h : heap) (it : IteratorTemplate)
  : outcome IteratorTemplate :=
  match fuel with
  | O => OutOfFuel
  | S fuel' =>
    if iter_eqb it (cbegin g) then Ok (cbegin g)
    else
      prev ← iter_minus_int it 1;
      if Ascii.eqb (iter_deref prev h) newline then Ok it
      else
        let '(it', r) := iter_pre_dec it in
        _ ← r; line_start_loop fuel' g h it'
  end.

(** The second loop of [line]: the value of [line_end] when it ends. *)
Fixpoint line_end_loop (fuel : nat) (g : t) (h : heap) (it : IteratorTemplate)
  : outcome IteratorTemplate :=
  match fuel with
  | O => OutOfFuel
  | S fuel' =>
    if iter_eqb it (cend g) then Ok (cend g)
    else if Ascii.eqb (iter_deref it h) newline then next it 1
    else
      let '(it', r) := iter_pre_inc it in
      _ ← r; line_end_loop fuel' g h it'
  end.

(** [std::string(first, last)]: the length is the distance, the characters
    are read by stepping [first]. *)
Fixpoint copy_range (n : nat) (it : IteratorTemplate) (h : heap)
  : outcome (list ascii) :=
  match n with
  | O => Ok []
  | S n' =>
    let c := iter_deref it h in
    let '(it', r) := iter_pre_inc it in
    _ ← r; rest ← copy_range n' it' h; Ok (c :: rest)
  end.

Definition string_of_range (first last : IteratorTemplate) (h : heap)
  : outcome (list ascii) :=
  d ← distance first last; copy_range (Z.to_nat d) first h.

(** [std::string line(size_type pos) const] *)
Definition line (fuel : nat) (pos : Z) (g : t) (h : heap)
  : outcome (list ascii) :=
  if size g <? pos then Throw (out_of_range "index out of range")
  else if empty g then
    Throw (runtime_error "Cannot pull line from empty gapvector")
  else
    it ← next (cbegin g) pos;
    line_start ← line_start_loop fuel g h it;
    it ← next (cbegin g) pos;
    line_end ← line_end_loop fuel g h it;
    string_of_range line_start line_end h.

End Gapbuffer.

Import Gapbuffer.

(** ** States the public interface can produce *)

(** Any constructor, then any sequence of the public modifiers; a failed
    [pop_back] or [erase] leaves the state it leaves. *)
Inductive reachable : Gapbuffer.state -> Prop :=
| reach_default h : reachable (ctor_default h)
| reach_length n h : 0 <= n < 2 ^ 64 -> reachable (ctor_length n h)
| reach_string_view str h : reachable (ctor_string_view str h)
| reach_range rng h : reachable (ctor_range rng h)
| reach_initializer_list lst h : reachable (ctor_initializer_list lst h)
| reach_copy g h : reachable (g, h) -> reachable (ctor_copy g h)
| reach_reserve n s :
    0 <= n < 2 ^ 64 -> reachable s -> reachable (reserve n s)
| reach_clear s : reachable s -> reachable (clear s)
| reach_push_back c s : reachable s -> reachable (push_back c s)
| reach_insert v s : reachable s -> reachable (insert v s)
| reach_pop_back s : reachable s -> reachable (snd (pop_back s))
| reach_erase fuel count s :
    0 <= count < 2 ^ 64 -> reachable s ->
    fst (erase fuel count s) <> OutOfFuel ->
    reachable (snd (erase fuel count s))
| reach_advance s : reachable s -> reachable (advance s)
| reach_retreat s : reachable s -> reachable (retreat s).

(** The layout of section 3 of the specification, for a block whose length
    fits [size_t]. *)
Definition layout_ok (g : Gapbuffer.t) : Prop :=
  bufferStart g <= gapStart g /\
  gapStart g <= gapEnd g /\ gapEnd g <= bufferEnd g /\
  bufferEnd g - bufferStart g < 2 ^ 64.

Definition left_length (g : Gapbuffer.t) : Z := gapStart g - bufferStart g.
Definition right_length (g : Gapbuffer.t) : Z := bufferEnd g - gapEnd g.

(** The contents of the two segments, read from memory. *)
Definition left_segment (g : Gapbuffer.t) (h : heap) : list ascii :=
  read_cells (Z.to_nat (left_length g)) (bufferStart g) (cells h).
Definition right_segment (g : Gapbuffer.t) (h : heap) : list ascii :=
  read_cells (Z.to_nat (right_length g)) (gapEnd g) (cells h).

(** A memory in which every byte is ['x'], with nothing allocated. *)
Definition heap0 : heap := mkHeap (fun _ => "x"%char) ∅ 4096.

(** The characters of a string literal. *)
Definition chars (s : string) : list ascii := list_ascii_of_string s.

(** Every byte of the range [lo, hi) is the zero character. *)
Definition zeroed (m : addr -> ascii) (lo hi : Z) : Prop :=
  forall a, lo <= a < hi -> m a = Ascii.zero.

(** The block at [bufferStart] is live and has the length the object
    counts on. *)
Definition owns_block (h : heap) (g : Gapbuffer.t) : Prop :=
  allocs h !! bufferStart g = Some (capacity g).

(** ** Lemmas on machine integers and memory *)

(** Side conditions on the four pointers: unfold the layout and leave the
    rest to linear arithmetic. *)
Ltac layout :=
  unfold layout_ok, left_length, right_length in *; cbn; lia.

Lemma wrap64_small z : 0 <= z < 2 ^ 64 -> wrap64 z = z.
Proof. intros Hz. unfold wrap64. apply Z.mod_small. exact Hz. Qed.

Lemma wrap32_small z : 0 <= z < 2 ^ 32 -> wrap32 z = z.
Proof. intros Hz. unfold wrap32. apply Z.mod_small. exact Hz. Qed.

Lemma wrap32_bounds z : 0 <= wrap32 z < 2 ^ 32.
Proof. unfold wrap32. apply Z.mod_pos_bound. lia. Qed.

Lemma wrap32_le z : 0 <= z -> wrap32 z <= z.
Proof. intros Hz. unfold wrap32. apply Z.mod_le; lia. Qed.

Lemma write_eq p c m : write p c m p = c.
Proof. unfold write. rewrite Z.eqb_refl. reflexivity. Qed.

Lemma write_ne p q c m : q <> p -> write p c m q = m q.
Proof.
  intros Hne. unfold write. destruct (Z.eqb_spec q p); [contradiction | reflexivity].
Qed.

Lemma read_cells_length n p m : length (read_cells n p m) = n.
Proof.
  revert p. induction n as [| n IH]; intros p; simpl; [reflexivity |].
  rewrite IH. reflexivity.
Qed.

Lemma read_cells_lookup n p m (i : nat) :
  (i < n)%nat -> read_cells n p m !! i = Some (m (p + Z.of_nat i)).
Proof.
  revert p i. induction n as [| n IH]; intros p i Hi; [lia |].
  destruct i as [| i]; simpl.
  - rewrite Z.add_0_r. reflexivity.
  - rewrite IH by lia. do 2 f_equal. lia.
Qed.

Lemma read_cells_ext n p m m' :
  (forall a, p <= a < p + Z.of_nat n -> m a = m' a) ->
  read_cells n p m = read_cells n p m'.
Proof.
  revert p. induction n as [| n IH]; intros p Hext; simpl; [reflexivity |].
  rewrite (Hext p) by lia. f_equal. apply IH. intros a Ha. apply Hext. lia.
Qed.

Lemma read_cells_snoc n p m :
  read_cells (S n) p m = read_cells n p m ++ [m (p + Z.of_nat n)].
Proof.
  revert p. induction n as [| n IH]; intros p.
  - simpl. rewrite Z.add_0_r. reflexivity.
  - transitivity (m p :: (read_cells n (p + 1) m ++ [m (p + 1 + Z.of_nat n)])).
    + rewrite <- IH. reflexivity.
    + cbn [read_cells app]. do 4 f_equal. lia.
Qed.

Lemma fill_cells_spec n p c m a :
  fill_cells n p c m a = if (p <=? a) && (a <? p + Z.of_nat n) then c else m a.
Proof.
  revert p m. induction n as [| n IH]; intros p m.
  - simpl. rewrite Z.add_0_r.
    destruct (Z.leb_spec p a), (Z.ltb_spec a p); simpl; try reflexivity; lia.
  - simpl fill_cells. rewrite IH. unfold write.
    destruct (Z.leb_spec (p + 1) a), (Z.ltb_spec a (p + 1 + Z.of_nat n)),
      (Z.leb_spec p a), (Z.ltb_spec a (p + Z.of_nat (S n))), (Z.eqb_spec a p);
      simpl; try reflexivity; lia.
Qed.

Lemma write_list_outside l p m a :
  a < p \/ p + Z.of_nat (length l) <= a -> write_list l p m a = m a.
Proof.
  revert p m. induction l as [| c l IH]; intros p m Ha; simpl; [reflexivity |].
  rewrite IH by (simpl in Ha; lia). apply write_ne. simpl in Ha. lia.
Qed.

Lemma read_write_list l p m : read_cells (length l) p (write_list l p m) = l.
Proof.
  revert p m. induction l as [| c l IH]; intros p m; simpl; [reflexivity |].
  rewrite IH. f_equal. rewrite write_list_outside by lia. apply write_eq.
Qed.

(** ** The scenarios of the specification, run on the embedding *)

Example scenario_construct :
  let s := ctor_string_view (chars "hello") heap0 in
  size (fst s) = 5 /\ to_str (fst s) (snd s) = chars "hello".
Proof. vm_compute. split; reflexivity. Qed.

Example scenario_push_back :
  let s := push_back "!" (ctor_string_view (chars "hello") heap0) in
  size (fst s) = 6 /\ to_str (fst s) (snd s) = chars "hello!".
Proof. vm_compute. split; reflexivity. Qed.

Example scenario_erase :
  let r := erase 3 2 (ctor_string_view (chars "hello!") heap0) in
  fst r = Ok (chars "!o") /\
  to_str (fst (snd r)) (snd (snd r)) = chars "hell".
Proof. vm_compute. split; reflexivity. Qed.

Example scenario_capacity :
  let s := ctor_length 10 heap0 in
  capacity (fst s) = 10 /\ size (fst s) = 0 /\ empty (fst s) = true.
Proof. vm_compute. repeat split; reflexivity. Qed.

Example scenario_equal :
  let '(a, h) := ctor_string_view (chars "x") heap0 in
  let '(b, h) := push_back "x" (ctor_default h) in
  capacity a = 9 /\ capacity b = 32 /\ equal a b h = true.
Proof. vm_compute. repeat split; reflexivity. Qed.

(** ** Capacity arithmetic and the layout *)

(** In [size_t] arithmetic the three counters always add up. *)
Lemma size_plus_gap_size (g : Gapbuffer.t) :
  wrap64 (size g + gap_size g) = capacity g.
Proof.
  unfold size, gap_size, capacity, wrap64.
  rewrite <- Z.add_mod by lia. f_equal. lia.
Qed.

Lemma layout_ok_counters (g : Gapbuffer.t) :
  layout_ok g ->
  size g = left_length g + right_length g /\
  gap_size g = gapEnd g - gapStart g /\
  capacity g = bufferEnd g - bufferStart g.
Proof.
  unfold layout_ok, size, gap_size, capacity, left_length, right_length.
  intros Hl. rewrite !wrap64_small by lia. lia.
Qed.

Lemma to_str_segments (g : Gapbuffer.t) (h : heap) :
  layout_ok g -> to_str g h = left_segment g h ++ right_segment g h.
Proof.
  unfold layout_ok, to_str, left_segment, right_segment, left_length, right_length.
  intros Hl. rewrite !wrap64_small by lia. reflexivity.
Qed.

Lemma to_str_length (g : Gapbuffer.t) (h : heap) :
  layout_ok g -> Z.of_nat (length (to_str g h)) = size g.
Proof.
  intros Hl. destruct (layout_ok_counters g Hl) as (-> & _ & _).
  rewrite to_str_segments by assumption.
  unfold left_segment, right_segment. rewrite length_app, !read_cells_length.
  unfold layout_ok, left_length, right_length in *. lia.
Qed.

(** Where the two calls leave the pointers, whatever the state. *)
Lemma advance_pointers (g : Gapbuffer.t) (h : heap) :
  fst (advance (g, h))
  = Gapbuffer.mk (bufferStart g) (gapStart g + 1) (gapEnd g + 1) (bufferEnd g).
Proof. unfold advance. destruct (gapEnd g <? bufferEnd g); reflexivity. Qed.

Lemma retreat_pointers (g : Gapbuffer.t) (h : heap) :
  fst (retreat (g, h))
  = Gapbuffer.mk (bufferStart g) (gapStart g - 1) (gapEnd g - 1) (bufferEnd g).
Proof.
  unfold retreat. cbn.
  destruct (bufferStart g <? gapStart g - 1); reflexivity.
Qed.

(** The same at the other end: [retreat()] with nothing before the
    cursor moves [gapStart] below [bufferStart]. *)
Lemma retreat_at_left_end_breaks_layout (g : Gapbuffer.t) (h : heap) :
  gapStart g = bufferStart g ->
  gapStart (fst (retreat (g, h))) < bufferStart (fst (retreat (g, h))).
Proof. intros Heq. rewrite retreat_pointers. cbn. lia. Qed.

(** The copy constructor takes [gapStart] from the end of the copied
    range, which is the end of the new block. *)
Lemma ctor_copy_gapStart (other : Gapbuffer.t) (h : heap) :
  gapStart (fst (ctor_copy other h)) = bufferEnd (fst (ctor_copy other h)).
Proof.
  unfold ctor_copy, capacity, wrap64. cbn.
  pose proof (Z.mod_pos_bound (bufferEnd other - bufferStart other) (2 ^ 64)).
  lia.
Qed.

(** C1 (the code departs from it): in [size_t] arithmetic
    [size() + gap_size() == capacity()] holds for every state, but the
    ordering of the pointers does not survive [advance()] at the right end
    of the content.  A default-constructed buffer has an empty right
    segment; the guard of [advance] protects the element transfer only, and
    both gap pointers are incremented all the same, so [gapEnd] passes
    [bufferEnd] in a state the public interface reaches. *)
Theorem C1_advance_at_right_end_breaks_layout (h : heap) :
  (forall g : Gapbuffer.t, wrap64 (size g + gap_size g) = capacity g) /\
  let s := advance (ctor_default h) in
  reachable s /\
  size (fst s) + gap_size (fst s) = capacity (fst s) /\
  gapEnd (fst s) = bufferEnd (fst s) + 1 /\
  ~ layout_ok (fst s).
Proof.
  split; [exact size_plus_gap_size |]. cbn zeta.
  split; [apply reach_advance, reach_default |].
  change (ctor_default h)
    with (Gapbuffer.mk (brk h) (brk h) (brk h + 32) (brk h + 32),
          mkHeap (fill_cells (Z.to_nat 32) (brk h) Ascii.zero (cells h))
                 (<[brk h := 32]> (allocs h)) (brk h + 32)).
  rewrite advance_pointers. unfold size, gap_size, capacity, layout_ok. cbn.
  split; [| split; [reflexivity | lia]].
  replace (brk h + 32 - brk h - (brk h + 32 + 1 - (brk h + 1))) with 0 by lia.
  replace (brk h + 32 + 1 - (brk h + 1)) with 32 by lia.
  replace (brk h + 32 - brk h) with 32 by lia.
  reflexivity.
Qed.

(** ** Checked element access *)

Lemma at_throws_iff (g : Gapbuffer.t) (i : Z) :
  (exists e, at_ i g = Throw e) <-> size g <= i.
Proof.
  unfold at_. destruct (Z.leb_spec (size g) i) as [Hle | Hlt].
  - split; [intros _; exact Hle | intros _; eexists; reflexivity].
  - split; [| lia]. intros [e He].
    destruct (i <? wrap64 (gapStart g - bufferStart g)); discriminate He.
Qed.

(** C2: [at(i)] throws [out_of_range] exactly when [i >= size()];
    otherwise it returns the slot [bufferStart + i] when [i] is below the
    length of the left segment and [gapEnd + (i - left_length)] otherwise,
    and that slot holds the [i]-th element of [to_str()], the left segment
    followed by the right one. *)
Theorem C2_at_checked_translation (g : Gapbuffer.t) (h : heap) (i : Z) :
  0 <= i < 2 ^ 64 ->
  (at_ i g = Throw (out_of_range "index out of range") <-> size g <= i) /\
  (layout_ok g -> i < size g ->
   let slot := if i <? left_length g then bufferStart g + i
               else gapEnd g + (i - left_length g) in
   at_ i g = Ok slot /\
   to_str g h = left_segment g h ++ right_segment g h /\
   to_str g h !! Z.to_nat i = Some (load h slot)).
Proof.
  intros Hi. split.
  - unfold at_. destruct (Z.leb_spec (size g) i) as [Hle | Hlt].
    + split; [intros _; exact Hle | reflexivity].
    + split; [| lia].
      destruct (i <? wrap64 (gapStart g - bufferStart g)); discriminate.
  - intros Hl Hlt. cbn zeta.
    destruct (layout_ok_counters g Hl) as (Hsz & _ & _).
    pose proof Hl as (H1 & H2 & H3 & H4).
    assert (Hat : at_ i g = Ok (if i <? left_length g then bufferStart g + i
                                else gapEnd g + (i - left_length g))).
    { unfold at_, left_length.
      destruct (Z.leb_spec (size g) i) as [Hle | _]; [lia |].
      rewrite (wrap64_small (gapStart g - bufferStart g)) by lia.
      destruct (Z.ltb_spec i (gapStart g - bufferStart g)) as [Hb | Hb];
        [reflexivity |].
      rewrite wrap64_small by (unfold left_length, right_length in Hsz; lia).
      reflexivity. }
    split; [exact Hat |]. split; [apply to_str_segments; exact Hl |].
    rewrite to_str_segments by exact Hl.
    unfold left_segment, right_segment, load.
    destruct (Z.ltb_spec i (left_length g)) as [Hb | Hb].
    + rewrite lookup_app_l by (rewrite read_cells_length; lia).
      rewrite read_cells_lookup by lia. do 2 f_equal. lia.
    + rewrite lookup_app_r by (rewrite read_cells_length; lia).
      rewrite read_cells_length.
      rewrite read_cells_lookup by (unfold left_length, right_length in *; lia).
      do 2 f_equal. unfold left_length in *. lia.
Qed.

(** C2 at a concrete buffer: ["ab"] then a cursor move to the left, so the
    gap lies between ['a'] and ['b']; index [1] is read behind the gap and
    index [2] is refused. *)
Lemma C2_at_checked_translation_witness :
  let s := retreat (ctor_string_view ["a"; "b"]%char heap0) in
  0 <= 1 < 2 ^ 64 /\ layout_ok (fst s) /\ 1 < size (fst s) /\
  at_ 1 (fst s) = Ok (gapEnd (fst s)) /\
  to_str (fst s) (snd s) !! 1%nat = Some "b"%char /\
  (at_ 2 (fst s) = Throw (out_of_range "index out of range") <-> size (fst s) <= 2).
Proof.
  cbn zeta.
  pose (s := retreat (ctor_string_view ["a"; "b"]%char heap0)).
  assert (Hi : 0 <= 1 < 2 ^ 64) by lia.
  assert (Hi2 : 0 <= 2 < 2 ^ 64) by lia.
  assert (Hl : layout_ok (fst s)) by (vm_compute; intuition discriminate).
  assert (Hlt : 1 < size (fst s)) by (vm_compute; reflexivity).
  destruct (C2_at_checked_translation (fst s) (snd s) 1 Hi) as (_ & H1).
  destruct (C2_at_checked_translation (fst s) (snd s) 2 Hi2) as (H2 & _).
  destruct (H1 Hl Hlt) as (Ha & _ & Hb).
  split; [exact Hi |]. split; [exact Hl |]. split; [exact Hlt |].
  split; [exact Ha |]. split; [exact Hb | exact H2].
Defined.

(** ** [empty()] *)

(** C10: [empty()] is true exactly when the left segment is empty
    ([gapStart == bufferStart]).  That is not [size() == 0]: after ["ab"]
    is loaded and the cursor is moved back twice with [retreat()], the
    state is reachable, [empty()] is true, and [size()] is 2. *)
Theorem C10_empty_is_left_segment_empty :
  (forall g : Gapbuffer.t, empty g = true <-> gapStart g = bufferStart g) /\
  (exists s : Gapbuffer.state,
      s = retreat (retreat (ctor_string_view ["a"; "b"]%char heap0)) /\
      reachable s /\ layout_ok (fst s) /\
      empty (fst s) = true /\ size (fst s) = 2 /\
      to_str (fst s) (snd s) <> []) /\
  ~ (forall s : Gapbuffer.state,
        reachable s -> (empty (fst s) = true <-> size (fst s) = 0)).
Proof.
  assert (Hex : let s := retreat (retreat (ctor_string_view ["a"; "b"]%char heap0)) in
                reachable s /\ layout_ok (fst s) /\
                empty (fst s) = true /\ size (fst s) = 2 /\
                to_str (fst s) (snd s) <> []).
  { cbn zeta. split; [do 2 apply reach_retreat; apply reach_string_view |].
    split; [vm_compute; intuition discriminate |].
    split; [vm_compute; reflexivity |].
    split; [vm_compute; reflexivity |].
    vm_compute. discriminate. }
  split; [| split].
  - intros g. unfold empty. rewrite Z.eqb_eq. split; intros H; symmetry; exact H.
  - eexists. split; [reflexivity | exact Hex].
  - intros Hall. destruct Hex as (Hr & _ & He & Hs & _).
    apply (Hall _ Hr) in He. rewrite He in Hs. discriminate Hs.
Qed.

(** ** Growth *)

Lemma fill_cells_zeroed n p m :
  zeroed (fill_cells n p Ascii.zero m) p (p + Z.of_nat n).
Proof.
  intros a Ha. rewrite fill_cells_spec.
  destruct (Z.leb_spec p a), (Z.ltb_spec a (p + Z.of_nat n)); simpl;
    try reflexivity; lia.
Qed.

(** Copying out of a zeroed range writes zeros only: what was zero stays
    zero and the destination becomes zero, overlapping or not. *)
Lemma copy_cells_zeroed n src dst m :
  zeroed m src (src + Z.of_nat n) ->
  (forall a, m a = Ascii.zero -> copy_cells n src dst m a = Ascii.zero) /\
  zeroed (copy_cells n src dst m) dst (dst + Z.of_nat n).
Proof.
  revert src dst m. induction n as [| n IH]; intros src dst m Hz.
  - split; [intros a Ha; exact Ha | intros a Ha; lia].
  - assert (Hsrc : m src = Ascii.zero) by (apply Hz; lia).
    set (m1 := write dst (m src) m).
    assert (Hkeep : forall a, m a = Ascii.zero -> m1 a = Ascii.zero).
    { intros a Ha. unfold m1, write. destruct (a =? dst); [exact Hsrc | exact Ha]. }
    assert (Hz1 : zeroed m1 (src + 1) (src + 1 + Z.of_nat n)).
    { intros a Ha. apply Hkeep, Hz. lia. }
    destruct (IH (src + 1) (dst + 1) m1 Hz1) as [IHkeep IHdst].
    split.
    + intros a Ha. apply IHkeep, Hkeep, Ha.
    + intros a Ha. destruct (Z.eq_dec a dst) as [-> | Hne].
      * apply IHkeep. unfold m1. rewrite write_eq. exact Hsrc.
      * apply IHdst. lia.
Qed.

Lemma read_cells_zeroed n p m :
  zeroed m p (p + Z.of_nat n) -> read_cells n p m = repeat Ascii.zero n.
Proof.
  revert p. induction n as [| n IH]; intros p Hz; simpl; [reflexivity |].
  rewrite (Hz p) by lia. f_equal. apply IH. intros a Ha. apply Hz. lia.
Qed.

Lemma reserve_no_growth (new_cap : Z) (s : Gapbuffer.state) :
  new_cap <= capacity (fst s) -> reserve new_cap s = s.
Proof.
  destruct s as [g h]. simpl. intros Hle. unfold reserve.
  destruct (Z.ltb_spec (capacity g) new_cap); [lia | reflexivity].
Qed.

(** The pointers [reserve] leaves when it grows: the two left pointers lie
    in the new block, the two right pointers are measured from the old
    [bufferStart]. *)
Lemma reserve_growth_pointers (new_cap : Z) (g : Gapbuffer.t) (h : heap) :
  layout_ok g -> capacity g < new_cap ->
  fst (reserve new_cap (g, h))
  = Gapbuffer.mk (brk h) (brk h + left_length g)
                 (bufferStart g + new_cap - right_length g)
                 (bufferStart g + new_cap).
Proof.
  intros Hl Hgrow. pose proof Hl as (H1 & H2 & H3 & H4).
  destruct (layout_ok_counters g Hl) as (_ & _ & Hcap).
  unfold reserve. destruct (Z.ltb_spec (capacity g) new_cap); [| lia].
  cbn. unfold left_length, right_length.
  rewrite (wrap64_small (bufferEnd g - gapEnd g)) by lia.
  f_equal; lia.
Qed.

(** The bytes [reserve] leaves when it grows: the value-construction runs
    over the old block, from the old [bufferStart] on, so both segments are
    zero before they are moved. *)
Lemma reserve_growth_cells (new_cap : Z) (g : Gapbuffer.t) (h : heap) :
  layout_ok g -> capacity g < new_cap < 2 ^ 64 ->
  let m := cells (snd (reserve new_cap (g, h))) in
  zeroed m (brk h) (brk h + left_length g) /\
  zeroed m (bufferStart g + new_cap - right_length g) (bufferStart g + new_cap).
Proof.
  intros Hl Hgrow. cbn zeta. pose proof Hl as (H1 & H2 & H3 & H4).
  destruct (layout_ok_counters g Hl) as (Hsz & _ & Hcap).
  unfold reserve. destruct (Z.ltb_spec (capacity g) new_cap); [| lia].
  cbn. rewrite (wrap64_small (bufferEnd g - gapEnd g)) by lia.
  unfold left_length, right_length in *.
  set (m0 := fill_cells (Z.to_nat new_cap) (bufferStart g) Ascii.zero (cells h)).
  assert (Hz0 : zeroed m0 (bufferStart g) (bufferStart g + new_cap)).
  { intros a Ha. apply fill_cells_zeroed. lia. }
  set (nl := Z.to_nat (gapStart g - bufferStart g)).
  set (m1 := copy_cells nl (bufferStart g) (brk h) m0).
  destruct (copy_cells_zeroed nl (bufferStart g) (brk h) m0) as [Hkeep1 Hdst1].
  { intros a Ha. apply Hz0. unfold nl in Ha. lia. }
  fold m1 in Hkeep1, Hdst1.
  set (nr := Z.to_nat (bufferEnd g - gapEnd g)).
  set (dst := bufferStart g + Z.max 0 new_cap - (bufferEnd g - gapEnd g)).
  destruct (copy_cells_zeroed nr (gapEnd g) dst m1) as [Hkeep2 Hdst2].
  { intros a Ha. apply Hkeep1, Hz0. unfold nr in Ha. lia. }
  split.
  - intros a Ha. apply Hkeep2, Hdst1. unfold nl. lia.
  - intros a Ha. apply Hdst2. unfold dst, nr. lia.
Qed.

Lemma reserve_growth_zeroes (new_cap : Z) (g : Gapbuffer.t) (h : heap) :
  layout_ok g -> capacity g < new_cap < 2 ^ 64 ->
  let s' := reserve new_cap (g, h) in
  to_str (fst s') (snd s') = repeat Ascii.zero (Z.to_nat (size g)).
Proof.
  intros Hl Hgrow. cbn zeta. pose proof Hl as (H1 & H2 & H3 & H4).
  destruct (layout_ok_counters g Hl) as (Hsz & _ & Hcap).
  destruct (reserve_growth_cells new_cap g h Hl Hgrow) as [Hzl Hzr].
  unfold to_str. rewrite reserve_growth_pointers by (assumption || lia).
  cbn [bufferStart gapStart gapEnd bufferEnd].
  unfold left_length, right_length in *.
  replace (brk h + (gapStart g - bufferStart g) - brk h)
    with (gapStart g - bufferStart g) by lia.
  replace (bufferStart g + new_cap - (bufferStart g + new_cap - (bufferEnd g - gapEnd g)))
    with (bufferEnd g - gapEnd g) by lia.
  rewrite !wrap64_small by lia.
  rewrite (read_cells_zeroed _ (brk h)) by (intros a Ha; apply Hzl; lia).
  rewrite (read_cells_zeroed _ (bufferStart g + new_cap - (bufferEnd g - gapEnd g)))
    by (intros a Ha; apply Hzr; lia).
  rewrite <- repeat_app. f_equal. lia.
Qed.

(** C3 (the code departs from it): [reserve(new_cap)] changes nothing when
    [new_cap <= capacity()].  When it grows, the lengths of the two
    segments are kept, but [to_str()] is not: the characters are zeroed in
    the old block before they are moved, so every element of the logical
    sequence comes out as the zero character; and [bufferEnd] is set from
    the old [bufferStart] while [bufferStart] is the new block. *)
Theorem C3_reserve_growth_zeroes_content
  (new_cap : Z) (g : Gapbuffer.t) (h : heap) :
  layout_ok g -> 0 <= new_cap < 2 ^ 64 ->
  (new_cap <= capacity g -> reserve new_cap (g, h) = (g, h)) /\
  (capacity g < new_cap ->
   let s' := reserve new_cap (g, h) in
   to_str (fst s') (snd s') = repeat Ascii.zero (Z.to_nat (size g)) /\
   left_length (fst s') = left_length g /\
   right_length (fst s') = right_length g /\
   bufferStart (fst s') = brk h /\
   bufferEnd (fst s') = bufferStart g + new_cap).
Proof.
  intros Hl Hcap. split.
  - intros Hle. apply (reserve_no_growth new_cap (g, h)). exact Hle.
  - intros Hgrow. cbn zeta.
    split; [apply reserve_growth_zeroes; [exact Hl | lia] |].
    rewrite reserve_growth_pointers by assumption.
    unfold left_length, right_length. cbn. repeat split; lia.
Qed.

(** C3 at ["hello"]: [reserve(26)] on the 13-slot buffer turns the text
    into five zero characters; with the new block placed right behind the
    old one, [capacity()] comes out as 13 again. *)
Lemma C3_reserve_growth_zeroes_content_witness :
  let s := ctor_string_view ["h"; "e"; "l"; "l"; "o"]%char heap0 in
  let s' := reserve 26 s in
  layout_ok (fst s) /\ 0 <= 26 < 2 ^ 64 /\ capacity (fst s) < 26 /\
  to_str (fst s) (snd s) = ["h"; "e"; "l"; "l"; "o"]%char /\
  to_str (fst s') (snd s') = repeat Ascii.zero 5 /\
  to_str (fst s') (snd s') <> to_str (fst s) (snd s) /\
  capacity (fst s') = 13.
Proof.
  cbn zeta.
  pose (s := ctor_string_view ["h"; "e"; "l"; "l"; "o"]%char heap0).
  assert (Hl : layout_ok (fst s)) by (vm_compute; intuition discriminate).
  assert (Hc : 0 <= 26 < 2 ^ 64) by lia.
  assert (Hg : capacity (fst s) < 26) by (vm_compute; reflexivity).
  destruct (C3_reserve_growth_zeroes_content 26 (fst s) (snd s) Hl Hc)
    as (_ & Hgrow).
  destruct (Hgrow Hg) as (Hstr & _).
  split; [exact Hl |]. split; [exact Hc |]. split; [exact Hg |].
  split; [vm_compute; reflexivity |].
  split; [exact Hstr |].
  change (reserve 26 (ctor_string_view ["h"; "e"; "l"; "l"; "o"]%char heap0))
    with (reserve 26 (fst s, snd s)).
  cbn zeta in Hstr. rewrite Hstr.
  split; [vm_compute; discriminate | vm_compute; reflexivity].
Defined.

(** ** Cursor motion *)

(** Neither call changes [size()], wherever the cursor is. *)
Lemma advance_size (s : Gapbuffer.state) : size (fst (advance s)) = size (fst s).
Proof.
  destruct s as [g h]. rewrite advance_pointers. unfold size. cbn. f_equal. lia.
Qed.

Lemma retreat_size (s : Gapbuffer.state) : size (fst (retreat s)) = size (fst s).
Proof.
  destruct s as [g h]. rewrite retreat_pointers. unfold size. cbn. f_equal. lia.
Qed.

Lemma advance_cells (g : Gapbuffer.t) (h : heap) :
  gapEnd g < bufferEnd g ->
  cells (snd (advance (g, h)))
  = write (gapStart g) (cells h (gapEnd g)) (cells h).
Proof.
  intros Hlt. unfold advance.
  destruct (Z.ltb_spec (gapEnd g) (bufferEnd g)); [reflexivity | lia].
Qed.

Lemma retreat_cells (g : Gapbuffer.t) (h : heap) :
  bufferStart g < gapStart g - 1 ->
  cells (snd (retreat (g, h)))
  = write (gapEnd g - 1) (cells h (gapStart g - 1)) (cells h).
Proof.
  intros Hlt. unfold retreat. cbn.
  destruct (Z.ltb_spec (bufferStart g) (gapStart g - 1)); [reflexivity | lia].
Qed.

Lemma retreat_cells_sole (g : Gapbuffer.t) (h : heap) :
  gapStart g - 1 <= bufferStart g -> snd (retreat (g, h)) = h.
Proof.
  intros Hle. unfold retreat. cbn.
  destruct (Z.ltb_spec (bufferStart g) (gapStart g - 1)); [lia | reflexivity].
Qed.

(** With an element behind the gap, [advance()] keeps the text. *)
Lemma advance_to_str (g : Gapbuffer.t) (h : heap) :
  layout_ok g -> gapEnd g < bufferEnd g ->
  let s' := advance (g, h) in
  to_str (fst s') (snd s') = to_str g h /\ layout_ok (fst s').
Proof.
  intros Hl Hlt. cbn zeta. pose proof Hl as (H1 & H2 & H3 & H4).
  rewrite advance_pointers. split; [| layout].
  unfold to_str. cbn [bufferStart gapStart gapEnd bufferEnd].
  rewrite advance_cells by exact Hlt.
  rewrite !wrap64_small by lia.
  set (m' := write (gapStart g) (cells h (gapEnd g)) (cells h)).
  replace (Z.to_nat (gapStart g + 1 - bufferStart g))
    with (S (Z.to_nat (gapStart g - bufferStart g))) by lia.
  replace (Z.to_nat (bufferEnd g - gapEnd g))
    with (S (Z.to_nat (bufferEnd g - (gapEnd g + 1)))) by lia.
  rewrite read_cells_snoc, <- app_assoc. cbn [read_cells app].
  f_equal; [| f_equal].
  - apply read_cells_ext. intros a Ha. unfold m'. apply write_ne. lia.
  - unfold m'. replace (bufferStart g + Z.of_nat (Z.to_nat (gapStart g - bufferStart g)))
      with (gapStart g) by lia.
    apply write_eq.
  - apply read_cells_ext. intros a Ha. unfold m'. apply write_ne. lia.
Qed.

(** With two elements or more before the gap, [retreat()] keeps the text. *)
Lemma retreat_to_str (g : Gapbuffer.t) (h : heap) :
  layout_ok g -> 2 <= left_length g ->
  let s' := retreat (g, h) in
  to_str (fst s') (snd s') = to_str g h /\ layout_ok (fst s').
Proof.
  intros Hl Hlen. cbn zeta. pose proof Hl as (H1 & H2 & H3 & H4).
  unfold left_length in Hlen.
  rewrite retreat_pointers. split; [| layout].
  unfold to_str. cbn [bufferStart gapStart gapEnd bufferEnd].
  rewrite retreat_cells by lia.
  rewrite !wrap64_small by lia.
  set (m' := write (gapEnd g - 1) (cells h (gapStart g - 1)) (cells h)).
  replace (Z.to_nat (gapStart g - bufferStart g))
    with (S (Z.to_nat (gapStart g - 1 - bufferStart g))) by lia.
  replace (Z.to_nat (bufferEnd g - (gapEnd g - 1)))
    with (S (Z.to_nat (bufferEnd g - gapEnd g))) by lia.
  rewrite (read_cells_snoc (Z.to_nat (gapStart g - 1 - bufferStart g))
                           (bufferStart g) (cells h)), <- app_assoc.
  cbn [read_cells app].
  f_equal; [| f_equal].
  - apply read_cells_ext. intros a Ha. unfold m'. apply write_ne. lia.
  - unfold m'. rewrite write_eq. f_equal. lia.
  - replace (gapEnd g - 1 + 1) with (gapEnd g) by lia.
    apply read_cells_ext. intros a Ha. unfold m'. apply write_ne. lia.
Qed.

(** With exactly one element before the gap, the guard of [retreat()]
    ([gapStart > bufferStart], tested after the decrement) is false: the
    element is not carried over, and the slot the right segment gains keeps
    whatever the gap held. *)
Lemma retreat_sole_left_element (g : Gapbuffer.t) (h : heap) :
  layout_ok g -> left_length g = 1 ->
  let s' := retreat (g, h) in
  snd s' = h /\
  to_str (fst s') (snd s') = load h (gapEnd g - 1) :: right_segment g h.
Proof.
  intros Hl Hlen. cbn zeta. pose proof Hl as (H1 & H2 & H3 & H4).
  unfold left_length in Hlen.
  rewrite retreat_cells_sole by lia. split; [reflexivity |].
  rewrite retreat_pointers.
  unfold to_str, right_segment, right_length, load.
  cbn [bufferStart gapStart gapEnd bufferEnd].
  rewrite !wrap64_small by lia.
  replace (Z.to_nat (gapStart g - 1 - bufferStart g)) with O by lia.
  replace (Z.to_nat (bufferEnd g - (gapEnd g - 1)))
    with (S (Z.to_nat (bufferEnd g - gapEnd g))) by lia.
  cbn [read_cells app]. do 2 f_equal. lia.
Qed.

(** The round trips, where both steps stay inside the content. *)
Lemma advance_retreat_to_str (g : Gapbuffer.t) (h : heap) :
  layout_ok g -> 1 <= left_length g -> 1 <= right_length g ->
  let s' := retreat (advance (g, h)) in
  to_str (fst s') (snd s') = to_str g h.
Proof.
  intros Hl Hleft Hright. cbn zeta. unfold left_length, right_length in *.
  destruct (advance_to_str g h Hl) as [Hstr Hl']; [lia |].
  destruct (advance (g, h)) as [g1 h1] eqn:Hadv.
  assert (Hg1 : g1 = fst (advance (g, h))) by (rewrite Hadv; reflexivity).
  rewrite advance_pointers in Hg1. cbn [fst snd] in Hstr, Hl'.
  destruct (retreat_to_str g1 h1 Hl') as [Hstr' _].
  { unfold left_length. rewrite Hg1. cbn. lia. }
  cbn zeta in Hstr'. rewrite Hstr'. exact Hstr.
Qed.

Lemma retreat_advance_to_str (g : Gapbuffer.t) (h : heap) :
  layout_ok g -> 2 <= left_length g ->
  let s' := advance (retreat (g, h)) in
  to_str (fst s') (snd s') = to_str g h.
Proof.
  intros Hl Hleft. cbn zeta. pose proof Hl as (H1 & H2 & H3 & H4).
  destruct (retreat_to_str g h Hl Hleft) as [Hstr Hl'].
  destruct (retreat (g, h)) as [g1 h1] eqn:Hret.
  assert (Hg1 : g1 = fst (retreat (g, h))) by (rewrite Hret; reflexivity).
  rewrite retreat_pointers in Hg1. cbn [fst snd] in Hstr, Hl'.
  destruct (advance_to_str g1 h1 Hl') as [Hstr' _].
  { rewrite Hg1. cbn. lia. }
  cbn zeta in Hstr'. rewrite Hstr'. exact Hstr.
Qed.

(** ** Insertion and removal at the cursor *)

Lemma push_back_roomy (x : ascii) (g : Gapbuffer.t) (h : heap) :
  gapStart g + 1 <> gapEnd g ->
  push_back x (g, h)
  = (set_gapStart (gapStart g + 1) g, store (gapStart g) x h).
Proof.
  intros Hne. unfold push_back. cbn.
  destruct (Z.eqb_spec (gapStart g + 1) (gapEnd g)); [contradiction | reflexivity].
Qed.

Lemma push_back_growth (x : ascii) (g : Gapbuffer.t) (h : heap) :
  gapStart g + 1 = gapEnd g ->
  push_back x (g, h)
  = reserve (wrap64 (capacity g * 2))
            (set_gapStart (gapStart g + 1) g, store (gapStart g) x h).
Proof.
  intros Heq. unfold push_back. cbn.
  destruct (Z.eqb_spec (gapStart g + 1) (gapEnd g)); [reflexivity | contradiction].
Qed.

Lemma pop_back_nonempty (g : Gapbuffer.t) (h : heap) :
  gapStart g <> bufferStart g ->
  pop_back (g, h)
  = (Ok (load h (gapStart g - 1)), (set_gapStart (gapStart g - 1) g, h)).
Proof.
  intros Hne. unfold pop_back.
  destruct (Z.eqb_spec (gapStart g) (bufferStart g)); [contradiction | reflexivity].
Qed.

Lemma pop_back_empty (g : Gapbuffer.t) (h : heap) :
  gapStart g = bufferStart g ->
  pop_back (g, h) = (Throw (out_of_range "Buffer is empty"), (g, h)).
Proof.
  intros Heq. unfold pop_back.
  destruct (Z.eqb_spec (gapStart g) (bufferStart g)); [reflexivity | contradiction].
Qed.

(** With two free slots or more the gap is not exhausted, and the round
    trip gives the element and the text back. *)
Lemma push_back_pop_back_roomy (x : ascii) (g : Gapbuffer.t) (h : heap) :
  layout_ok g -> 2 <= gapEnd g - gapStart g ->
  let r := pop_back (push_back x (g, h)) in
  fst r = Ok x /\ fst (snd r) = g /\
  to_str (fst (snd r)) (snd (snd r)) = to_str g h /\
  size (fst (snd r)) = size g.
Proof.
  intros Hl Hgap. cbn zeta. pose proof Hl as (H1 & H2 & H3 & H4).
  rewrite push_back_roomy by lia.
  rewrite pop_back_nonempty by (cbn; lia). cbn [fst snd].
  assert (Hg : set_gapStart (gapStart (set_gapStart (gapStart g + 1) g) - 1)
                            (set_gapStart (gapStart g + 1) g) = g).
  { destruct g as [bs gs ge be]. unfold set_gapStart. cbn. f_equal. lia. }
  rewrite Hg. split; [| split; [reflexivity | split; [| reflexivity]]].
  - unfold load, store. cbn. replace (gapStart g + 1 - 1) with (gapStart g) by lia.
    rewrite write_eq. reflexivity.
  - unfold to_str, store. cbn [cells]. f_equal.
    + apply read_cells_ext. intros a Ha. apply write_ne.
      rewrite wrap64_small in Ha by lia. lia.
    + apply read_cells_ext. intros a Ha. apply write_ne. lia.
Qed.

Lemma retreat_moves (g : Gapbuffer.t) (h : heap) :
  bufferStart g < gapStart g - 1 ->
  retreat (g, h)
  = (Gapbuffer.mk (bufferStart g) (gapStart g - 1) (gapEnd g - 1) (bufferEnd g),
     store (gapEnd g - 1) (load h (gapStart g - 1)) h).
Proof.
  intros Hlt. unfold retreat. cbn.
  destruct (Z.ltb_spec (bufferStart g) (gapStart g - 1)); [reflexivity | lia].
Qed.

(** C4 (the code departs from it): [retreat()] with one element before
    the cursor.  On a default-constructed buffer, [push_back('a')],
    [push_back('b')] and one [retreat()] give the text ["ab"] with the
    cursor between the two letters, away from both ends.  A second
    [retreat()] leaves [size()] at 2 but does not carry ['a'] over: the text
    becomes a zero character followed by ['b'], and the [advance()] that
    follows does not bring ['a'] back. *)
Theorem C4_retreat_loses_the_sole_left_element (h : heap) :
  let s := retreat (push_back "b" (push_back "a" (ctor_default h))) in
  let s1 := retreat s in
  let s2 := advance s1 in
  layout_ok (fst s) /\ left_length (fst s) = 1 /\ right_length (fst s) = 1 /\
  to_str (fst s) (snd s) = ["a"; "b"]%char /\
  size (fst s1) = 2 /\
  to_str (fst s1) (snd s1) = [Ascii.zero; "b"%char] /\
  to_str (fst s2) (snd s2) = [Ascii.zero; "b"%char].
Proof.
  cbn zeta.
  set (b := brk h).
  set (h0 := mkHeap (fill_cells (Z.to_nat 32) b Ascii.zero (cells h))
                    (<[b := 32]> (allocs h)) (b + 32)).
  set (g0 := Gapbuffer.mk b b (b + 32) (b + 32)).
  assert (Hctor : ctor_default h = (g0, h0)) by reflexivity.
  rewrite Hctor. rewrite push_back_roomy by (cbn; lia).
  rewrite push_back_roomy by (cbn; lia).
  rewrite retreat_moves by (cbn; lia).
  cbn [set_gapStart g0 bufferStart gapStart gapEnd bufferEnd].
  set (g := Gapbuffer.mk b (b + 1 + 1 - 1) (b + 32 - 1) (b + 32)).
  set (hs := store (b + 32 - 1)
                   (load (store (b + 1) "b"%char (store b "a"%char h0))
                         (b + 1 + 1 - 1))
                   (store (b + 1) "b"%char (store b "a"%char h0))).
  assert (Hl : layout_ok g) by layout.
  assert (Hlen : left_length g = 1) by layout.
  assert (Hrlen : right_length g = 1) by layout.
  assert (Hat : forall a, cells hs a
                = if a =? b + 31 then "b"%char
                  else if a =? b + 1 then "b"%char
                  else if a =? b then "a"%char
                  else fill_cells (Z.to_nat 32) b Ascii.zero (cells h) a).
  { intros a. unfold hs, store, load, write. cbn [cells h0].
    replace (b + 1 + 1 - 1 =? b + 1) with true by (symmetry; apply Z.eqb_eq; lia).
    replace (b + 32 - 1) with (b + 31) by lia. reflexivity. }
  assert (Hright : right_segment g hs = ["b"%char]).
  { unfold right_segment. rewrite Hrlen. change (Z.to_nat 1) with 1%nat.
    cbn [read_cells gapEnd g]. rewrite Hat.
    replace (b + 32 - 1 =? b + 31) with true by (symmetry; apply Z.eqb_eq; lia).
    reflexivity. }
  assert (Hstale : load hs (gapEnd g - 1) = Ascii.zero).
  { unfold load. rewrite Hat. cbn [gapEnd g].
    destruct (Z.eqb_spec (b + 32 - 1 - 1) (b + 31)); [lia |].
    destruct (Z.eqb_spec (b + 32 - 1 - 1) (b + 1)); [lia |].
    destruct (Z.eqb_spec (b + 32 - 1 - 1) b); [lia |].
    apply fill_cells_zeroed. lia. }
  destruct (retreat_sole_left_element g hs Hl Hlen) as [Hh Hstr].
  assert (Hret : to_str (fst (retreat (g, hs))) (snd (retreat (g, hs)))
                 = [Ascii.zero; "b"%char])
    by (rewrite Hstr, Hstale, Hright; reflexivity).
  cbn [fst snd].
  split; [exact Hl |]. split; [exact Hlen |]. split; [exact Hrlen |].
  split; [| split; [| split]].
  - rewrite to_str_segments by exact Hl. rewrite Hright.
    unfold left_segment. rewrite Hlen. change (Z.to_nat 1) with 1%nat.
    cbn [read_cells bufferStart g app]. rewrite Hat.
    destruct (Z.eqb_spec b (b + 31)); [lia |].
    destruct (Z.eqb_spec b (b + 1)); [lia |].
    rewrite Z.eqb_refl. reflexivity.
  - rewrite retreat_size. cbn [fst].
    destruct (layout_ok_counters g Hl) as (-> & _ & _). lia.
  - exact Hret.
  - destruct (retreat (g, hs)) as [g2 h2] eqn:Hr.
    assert (Hg2 : g2 = fst (retreat (g, hs))) by (rewrite Hr; reflexivity).
    rewrite retreat_pointers in Hg2. cbn [fst snd] in Hret.
    destruct (advance_to_str g2 h2) as [Hadv _].
    + rewrite Hg2. layout.
    + rewrite Hg2. cbn. lia.
    + cbn zeta in Hadv. rewrite Hadv. exact Hret.
Qed.

(** C5 (the code departs from it): [push_back(x)] into the last free slot.
    The gap is exhausted, [reserve(capacity() * 2)] runs and zeroes the
    content before moving it, so the text is zero characters throughout and
    [pop_back()] returns the zero character, whatever [x] was. *)
Theorem C5_push_back_into_last_slot_loses_the_element
  (x : ascii) (g : Gapbuffer.t) (h : heap) :
  layout_ok g -> gapStart g + 1 = gapEnd g -> capacity g * 2 < 2 ^ 64 ->
  let s1 := push_back x (g, h) in
  to_str (fst s1) (snd s1) = repeat Ascii.zero (Z.to_nat (size g + 1)) /\
  fst (pop_back s1) = Ok Ascii.zero.
Proof.
  intros Hl Hgap Hdbl. cbn zeta. pose proof Hl as (H1 & H2 & H3 & H4).
  destruct (layout_ok_counters g Hl) as (Hsz & _ & Hcap).
  rewrite push_back_growth by exact Hgap.
  set (g1 := set_gapStart (gapStart g + 1) g).
  set (h1 := store (gapStart g) x h).
  assert (Hl1 : layout_ok g1) by layout.
  destruct (layout_ok_counters g1 Hl1) as (Hsz1 & _ & Hcap1).
  assert (Hc1 : capacity g1 = capacity g) by reflexivity.
  assert (Hnew : wrap64 (capacity g * 2) = capacity g * 2)
    by (apply wrap64_small; lia).
  assert (Hgrow : capacity g1 < wrap64 (capacity g * 2) < 2 ^ 64)
    by (rewrite Hnew, Hc1; lia).
  split.
  - rewrite (reserve_growth_zeroes _ g1 h1 Hl1 Hgrow). do 2 f_equal.
    rewrite Hsz1, Hsz. unfold left_length, right_length. cbn. lia.
  - destruct (reserve_growth_cells _ g1 h1 Hl1 Hgrow) as [Hzl _].
    pose proof (reserve_growth_pointers (wrap64 (capacity g * 2)) g1 h1 Hl1
                  (proj1 Hgrow)) as Hptr.
    destruct (reserve (wrap64 (capacity g * 2)) (g1, h1)) as [g2 h2].
    cbn [fst snd] in Hzl, Hptr.
    assert (Hleft : left_length g1 = left_length g + 1)
      by layout.
    rewrite pop_back_nonempty by (rewrite Hptr; unfold left_length in *; cbn; lia).
    cbn [fst]. f_equal. unfold load. apply Hzl.
    rewrite Hptr. unfold left_length in *. cbn. cbn in Hleft. lia.
Qed.

(** C5 at [Gapbuffer(1)]: [push_back('a')] then [pop_back()] gives the zero
    character, not ['a']. *)
Lemma C5_push_back_into_last_slot_loses_the_element_witness :
  let s := ctor_length 1 heap0 in
  layout_ok (fst s) /\ gapStart (fst s) + 1 = gapEnd (fst s) /\
  capacity (fst s) * 2 < 2 ^ 64 /\
  fst (pop_back (push_back "a" s)) = Ok Ascii.zero /\
  fst (pop_back (push_back "a" s)) <> Ok "a"%char.
Proof.
  cbn zeta. pose (s := ctor_length 1 heap0).
  assert (Hl : layout_ok (fst s)) by (vm_compute; intuition discriminate).
  assert (Hg : gapStart (fst s) + 1 = gapEnd (fst s)) by (vm_compute; reflexivity).
  assert (Hc : capacity (fst s) * 2 < 2 ^ 64) by (vm_compute; reflexivity).
  destruct (C5_push_back_into_last_slot_loses_the_element
              "a" (fst s) (snd s) Hl Hg Hc) as [_ Hpop].
  split; [exact Hl |]. split; [exact Hg |]. split; [exact Hc |].
  split; [exact Hpop |].
  change (ctor_length 1 heap0) with (fst s, snd s).
  cbn zeta in Hpop. rewrite Hpop. discriminate.
Defined.

(** ** Failing calls *)

Lemma set_gapStart_same (g : Gapbuffer.t) : set_gapStart (gapStart g) g = g.
Proof. destruct g. reflexivity. Qed.

(** [erase] asked for more than the left segment holds: every round pops,
    until [pop_back] finds the left segment empty and throws. *)
Lemma erase_loop_exhausts (n : nat) :
  forall (fuel : nat) (count i : Z) (ret : list ascii) (g : Gapbuffer.t) (h : heap),
    Z.of_nat n = left_length g -> 0 <= i -> i + left_length g < count ->
    (n < fuel)%nat ->
    erase_loop fuel count i ret (g, h)
    = (Throw (out_of_range "Buffer is empty"),
       (set_gapStart (bufferStart g) g, h)).
Proof.
  induction n as [| n IH]; intros fuel count i ret g h Hn Hi Hcount Hfuel;
    (destruct fuel as [| fuel]; [lia |]); unfold left_length in *;
    cbn [erase_loop];
    (destruct (Z.ltb_spec i count); [| lia]).
  - rewrite pop_back_empty by lia.
    replace (bufferStart g) with (gapStart g) by lia.
    rewrite set_gapStart_same. reflexivity.
  - rewrite pop_back_nonempty by lia.
    pose proof (wrap32_bounds (i + 1)). pose proof (wrap32_le (i + 1)).
    rewrite IH; [reflexivity | | | | ]; layout.
Qed.

(** [erase] within the left segment: the last [count] elements before the
    cursor come back in pop order. *)
Lemma erase_loop_completes (n : nat) :
  forall (fuel : nat) (count i : Z) (ret : list ascii) (g : Gapbuffer.t) (h : heap),
    Z.of_nat n = count - i -> 0 <= i -> count < 2 ^ 32 ->
    count - i <= left_length g -> (n < fuel)%nat ->
    erase_loop fuel count i ret (g, h)
    = (Ok (ret ++ rev (read_cells n (gapStart g - Z.of_nat n) (cells h))),
       (set_gapStart (gapStart g - Z.of_nat n) g, h)).
Proof.
  induction n as [| n IH]; intros fuel count i ret g h Hn Hi Hcount Hleft Hfuel;
    (destruct fuel as [| fuel]; [lia |]); unfold left_length in *;
    cbn [erase_loop].
  - destruct (Z.ltb_spec i count); [lia |].
    cbn [read_cells rev]. rewrite app_nil_r, Z.sub_0_r, set_gapStart_same.
    reflexivity.
  - destruct (Z.ltb_spec i count); [| lia].
    rewrite pop_back_nonempty by lia.
    rewrite wrap32_small by lia.
    rewrite IH by layout.
    cbn [gapStart set_gapStart bufferStart gapEnd bufferEnd].
    rewrite read_cells_snoc, rev_app_distr, <- app_assoc. cbn [rev app].
    unfold load, set_gapStart. cbn.
    replace (gapStart g - Z.of_nat (S n)) with (gapStart g - 1 - Z.of_nat n)
      by lia.
    replace (gapStart g - 1 - Z.of_nat n + Z.of_nat n) with (gapStart g - 1)
      by lia.
    reflexivity.
Qed.

(** C6 as stated fails: ["hi"] holds two elements before the cursor;
    [erase(3)] throws, and by then both elements are gone. *)
Lemma C6_erase_past_left_segment_consumes :
  let s := ctor_string_view ["h"; "i"]%char heap0 in
  let r := erase 10 3 s in
  left_length (fst s) < 3 /\
  fst r = Throw (out_of_range "Buffer is empty") /\
  to_str (fst s) (snd s) = ["h"; "i"]%char /\
  to_str (fst (snd r)) (snd (snd r)) = [] /\
  snd r <> s.
Proof.
  cbn zeta. split; [vm_compute; reflexivity |].
  split; [vm_compute; reflexivity |].
  split; [vm_compute; reflexivity |].
  split; [vm_compute; reflexivity |].
  intros Heq. apply (f_equal (fun s => gapStart (fst s))) in Heq.
  vm_compute in Heq. discriminate Heq.
Qed.

(** C6, amended: a failing [pop_back()] leaves the buffer as it was.  A
    failing [erase(count)] does not: it throws after it has popped the whole
    left segment, leaving [gapStart == bufferStart] and the other pointers
    and all bytes as they were, so the text is the right segment alone.
    [erase(count)] within the left segment completes and returns the
    removed elements in pop order. *)
Theorem C6_failing_calls
  (fuel : nat) (count : Z) (g : Gapbuffer.t) (h : heap) :
  layout_ok g -> 0 <= count < 2 ^ 64 ->
  (left_length g = 0 ->
   pop_back (g, h) = (Throw (out_of_range "Buffer is empty"), (g, h))) /\
  (left_length g < count -> (Z.to_nat (left_length g) < fuel)%nat ->
   let r := erase fuel count (g, h) in
   r = (Throw (out_of_range "Buffer is empty"),
        (set_gapStart (bufferStart g) g, h)) /\
   to_str (fst (snd r)) (snd (snd r)) = right_segment g h) /\
  (count <= left_length g -> count < 2 ^ 32 -> (Z.to_nat count < fuel)%nat ->
   erase fuel count (g, h)
   = (Ok (rev (read_cells (Z.to_nat count) (gapStart g - count) (cells h))),
      (set_gapStart (gapStart g - count) g, h))).
Proof.
  intros Hl Hcount. pose proof Hl as (H1 & H2 & H3 & H4).
  split; [| split].
  - unfold left_length. intros H0. apply pop_back_empty. lia.
  - intros Hlt Hfuel. cbn zeta. unfold erase.
    rewrite (erase_loop_exhausts (Z.to_nat (left_length g)))
      by (unfold left_length in *; lia).
    split; [reflexivity |]. cbn [fst snd].
    unfold to_str, right_segment, right_length. cbn.
    rewrite Z.sub_diag, !wrap64_small by lia. reflexivity.
  - intros Hle H32 Hfuel. unfold erase.
    rewrite (erase_loop_completes (Z.to_nat count)) by lia.
    rewrite Z2Nat.id by lia. reflexivity.
Qed.

(** C6 amended, at ["hello!"]: [erase(2)] returns ["!o"] and leaves
    ["hell"]; [erase(7)] throws and leaves the empty text. *)
Lemma C6_failing_calls_witness :
  let s := ctor_string_view ["h"; "e"; "l"; "l"; "o"; "!"]%char heap0 in
  layout_ok (fst s) /\ 0 <= 7 < 2 ^ 64 /\ left_length (fst s) < 7 /\
  fst (erase 10 7 s) = Throw (out_of_range "Buffer is empty") /\
  to_str (fst (snd (erase 10 7 s))) (snd (snd (erase 10 7 s))) = [] /\
  fst (erase 10 2 s) = Ok ["!"; "o"]%char /\
  to_str (fst (snd (erase 10 2 s))) (snd (snd (erase 10 2 s)))
  = ["h"; "e"; "l"; "l"]%char.
Proof.
  cbn zeta.
  pose (s := ctor_string_view ["h"; "e"; "l"; "l"; "o"; "!"]%char heap0).
  assert (Hl : layout_ok (fst s)) by (vm_compute; intuition discriminate).
  assert (H7 : 0 <= 7 < 2 ^ 64) by lia.
  assert (H2 : 0 <= 2 < 2 ^ 64) by lia.
  assert (Hlt : left_length (fst s) < 7) by (vm_compute; reflexivity).
  destruct (C6_failing_calls 10 7 (fst s) (snd s) Hl H7) as (_ & Hfail & _).
  destruct (C6_failing_calls 10 2 (fst s) (snd s) Hl H2) as (_ & _ & Hok).
  destruct Hfail as [Hr Hstr]; [exact Hlt | vm_compute; lia |].
  assert (Hok' := Hok ltac:(vm_compute; discriminate) ltac:(lia)
                      ltac:(vm_compute; lia)).
  change (ctor_string_view ["h"; "e"; "l"; "l"; "o"; "!"]%char heap0)
    with (fst s, snd s).
  split; [exact Hl |]. split; [exact H7 |]. split; [exact Hlt |].
  split; [rewrite Hr; reflexivity |].
  split; [rewrite Hstr; vm_compute; reflexivity |].
  rewrite Hok'. split; vm_compute; reflexivity.
Defined.

(** ** Iteration and search *)

Lemma iter_pre_inc_stays (it : IteratorTemplate) :
  iter_pre_inc it = (it, Undefined).
Proof. reflexivity. Qed.

Lemma iter_pre_dec_stays (it : IteratorTemplate) :
  iter_pre_dec it = (it, Undefined).
Proof. reflexivity. Qed.

(** C7 (the code departs from it): [operator++] and [operator--] have
    empty bodies.  On the buffer built from ["ab"] (left segment at 4096 and
    4097, gap from 4098 to 4106) the iterator on the last slot of the left
    segment is still on that slot after one increment, not on [gapEnd], and
    the iterator on [gapEnd] is still there after one decrement; neither
    call returns a value. *)
Theorem C7_iterator_steps_do_not_move :
  let g := fst (ctor_string_view ["a"; "b"]%char heap0) in
  let last_left := Iterator (gapStart g - 1) g in
  let first_right := Iterator (gapEnd g) g in
  gapStart g - 1 = 4097 /\ gapEnd g = 4106 /\
  iter_pre_inc last_left = (last_left, Undefined) /\
  ptr (fst (iter_pre_inc last_left)) = 4097 /\
  ptr (fst (iter_pre_inc last_left)) <> gapEnd g /\
  iter_pre_dec first_right = (first_right, Undefined) /\
  ptr (fst (iter_pre_dec first_right)) = 4106 /\
  ptr (fst (iter_pre_dec first_right)) <> gapStart g - 1.
Proof.
  cbn zeta. repeat split; try reflexivity; vm_compute; discriminate.
Qed.

Lemma iter_eqb_refl (it : IteratorTemplate) : iter_eqb it it = true.
Proof. unfold iter_eqb. rewrite !Z.eqb_refl. reflexivity. Qed.

Lemma find_count_zero (fuel : nat) (c : ascii) (g : Gapbuffer.t) (h : heap) :
  find fuel c 0 g h = Ok 0.
Proof. reflexivity. Qed.

(** A block of no slots: the loop is not entered. *)
Lemma find_in_empty_block
  (fuel : nat) (c : ascii) (count : Z) (g : Gapbuffer.t) (h : heap) :
  count <> 0 -> bufferStart g = bufferEnd g ->
  find (S fuel) c count g h = Ok (-1).
Proof.
  intros Hc Hb. unfold find. destruct (Z.eqb_spec count 0); [contradiction |].
  cbn [find_loop]. unfold begin_, end_. rewrite Hb, iter_eqb_refl. reflexivity.
Qed.

(** C8 (the code departs from it): [find(c, 0)] returns 0 at once.  For
    any other count, on a block with at least one slot, the first round of
    the loop already ends in [std::distance] (an [operator-] without a
    body) or in [++it] (an [operator++] without a body): no index and no
    sentinel is returned, however many rounds are allowed. *)
Theorem C8_find_returns_no_index
  (fuel : nat) (c : ascii) (count : Z) (g : Gapbuffer.t) (h : heap) :
  count <> 0 -> bufferStart g <> bufferEnd g ->
  find fuel c 0 g h = Ok 0 /\
  find (S fuel) c count g h = Undefined /\
  (forall v, find fuel c count g h <> Ok v).
Proof.
  intros Hc Hb.
  assert (Hstep : find (S fuel) c count g h = Undefined).
  { unfold find. destruct (Z.eqb_spec count 0); [contradiction |].
    cbn [find_loop]. unfold begin_ at 1, end_, iter_eqb. cbn [ptr gb].
    destruct (Z.eqb_spec (bufferStart g) (bufferEnd g)); [contradiction |].
    cbn [andb].
    destruct (Ascii.eqb _ c && (_ =? count)); reflexivity. }
  split; [reflexivity |]. split; [exact Hstep |].
  intros v. destruct fuel as [| fuel].
  - unfold find. destruct (Z.eqb_spec count 0); [contradiction | discriminate].
  - unfold find in *. destruct (Z.eqb_spec count 0); [contradiction |].
    cbn [find_loop]. unfold begin_ at 1, end_, iter_eqb. cbn [ptr gb].
    destruct (Z.eqb_spec (bufferStart g) (bufferEnd g)); [contradiction |].
    cbn [andb].
    destruct (Ascii.eqb _ c && (_ =? count)); discriminate.
Qed.

(** C8 at ["ab"]: the first ['b'] is at index 1, and ['a'] occurs once
    only; [find('b', 1)] returns no index and [find('a', 2)] no sentinel. *)
Lemma C8_find_returns_no_index_witness :
  let s := ctor_string_view ["a"; "b"]%char heap0 in
  1 <> 0 /\ 2 <> 0 /\ bufferStart (fst s) <> bufferEnd (fst s) /\
  to_str (fst s) (snd s) = ["a"; "b"]%char /\
  find 100 "b" 1 (fst s) (snd s) = Undefined /\
  find 100 "b" 1 (fst s) (snd s) <> Ok 1 /\
  find 100 "a" 2 (fst s) (snd s) <> Ok (-1).
Proof.
  cbn zeta. pose (s := ctor_string_view ["a"; "b"]%char heap0).
  assert (H1 : 1 <> 0) by discriminate.
  assert (H2 : 2 <> 0) by discriminate.
  assert (Hb : bufferStart (fst s) <> bufferEnd (fst s))
    by (vm_compute; discriminate).
  destruct (C8_find_returns_no_index 99 "b" 1 (fst s) (snd s) H1 Hb)
    as (_ & Hu & _).
  destruct (C8_find_returns_no_index 100 "b" 1 (fst s) (snd s) H1 Hb)
    as (_ & _ & Hb1).
  destruct (C8_find_returns_no_index 100 "a" 2 (fst s) (snd s) H2 Hb)
    as (_ & _ & Ha2).
  split; [exact H1 |]. split; [exact H2 |]. split; [exact Hb |].
  split; [vm_compute; reflexivity |].
  split; [exact Hu |]. split; [apply Hb1 | apply Ha2].
Defined.

(** ** Moving a buffer *)

Lemma ctor_move_result (other : Gapbuffer.t) (h : heap) :
  ctor_move other h = (other, other, deallocate (bufferStart other) (capacity other) h).
Proof. destruct other. reflexivity. Qed.

Lemma deallocate_lookup (p : addr) (n : Z) (h : heap) :
  allocs (deallocate p n h) !! p = None.
Proof. unfold deallocate. cbn. apply lookup_delete_eq. Qed.

(** Move assignment between two distinct objects with distinct blocks: the
    destination takes the pointers, the source is left with null pointers,
    and the block handed over stays live. *)
Lemma assign_move_transfers (this other : nat) (a o : Gapbuffer.t) (w : world) :
  objs w !! this = Some a -> objs w !! other = Some o ->
  this <> other -> bufferStart a <> bufferStart o ->
  let w' := assign_move this other w in
  objs w' !! this = Some o /\
  objs w' !! other = Some (Gapbuffer.mk nullptr nullptr nullptr nullptr) /\
  allocs (hp w') !! bufferStart o = allocs (hp w) !! bufferStart o /\
  allocs (hp w') !! bufferStart a = None.
Proof.
  intros Ha Ho Hne Hblk. cbn zeta. unfold assign_move. rewrite Ha, Ho.
  rewrite bool_decide_eq_true_2 by exact Hne. cbn [objs hp].
  split; [| split; [| split]].
  - rewrite lookup_insert_ne by congruence. rewrite lookup_insert_eq.
    destruct o. reflexivity.
  - apply lookup_insert_eq.
  - unfold deallocate, destroy_n. cbn. apply lookup_delete_ne. exact Hblk.
  - apply deallocate_lookup.
Qed.

(** C9 (the code departs from it): the move constructor.  The buffer built
    from ["hi"] owns the live 10-slot block at 4096.  Move-constructing from
    it copies the four pointers, leaves the source pointers as they were
    (not null), and deallocates that very block: afterwards the new object
    and the source both point at 4096 and no block is live there. *)
Theorem C9_move_constructor_frees_the_block_it_takes :
  let s := ctor_string_view ["h"; "i"]%char heap0 in
  let r := ctor_move (fst s) (snd s) in
  let this := fst (fst r) in
  let other' := snd (fst r) in
  let h' := snd r in
  owns_block (snd s) (fst s) /\ bufferStart (fst s) = 4096 /\
  this = fst s /\ other' = fst s /\
  bufferStart other' <> nullptr /\
  allocs h' !! bufferStart this = None /\
  ~ owns_block h' this.
Proof.
  cbn zeta. rewrite ctor_move_result. cbn [fst snd].
  split; [vm_compute; reflexivity |]. split; [reflexivity |].
  split; [reflexivity |]. split; [reflexivity |].
  split; [vm_compute; discriminate |].
  split; [apply deallocate_lookup |].
  unfold owns_block. rewrite deallocate_lookup. discriminate.
Qed.

(** ** Further lemmas on memory *)

Lemma read_cells_app (n k : nat) p m :
  read_cells (n + k) p m = read_cells n p m ++ read_cells k (p + Z.of_nat n) m.
Proof.
  revert p. induction n as [| n IH]; intros p.
  - cbn [Nat.add read_cells app]. f_equal. cbn. lia.
  - cbn [Nat.add read_cells app]. f_equal. rewrite IH. do 2 f_equal. lia.
Qed.

(** Copying into a range that lies behind the source leaves everything
    below the destination alone and reproduces the source. *)
Lemma copy_cells_behind n src dst m :
  src + Z.of_nat n <= dst ->
  (forall a, a < dst -> copy_cells n src dst m a = m a) /\
  (forall k, 0 <= k < Z.of_nat n -> copy_cells n src dst m (dst + k) = m (src + k)).
Proof.
  revert src dst m. induction n as [| n IH]; intros src dst m Hd.
  - split; [reflexivity | intros k Hk; lia].
  - cbn [copy_cells].
    destruct (IH (src + 1) (dst + 1) (write dst (m src) m)) as [Hlow Hcopy];
      [lia |].
    split.
    + intros a Ha. rewrite Hlow by lia. apply write_ne. lia.
    + intros k Hk. destruct (Z.eq_dec k 0) as [-> | Hk0].
      * rewrite !Z.add_0_r, Hlow by lia. apply write_eq.
      * replace (dst + k) with (dst + 1 + (k - 1)) by lia.
        rewrite Hcopy by lia. rewrite write_ne by lia. f_equal. lia.
Qed.

(** ** Construction *)

(** X1: [Gapbuffer(std::string_view str)] holds exactly [str]: the text is
    [str], [size()] is its length, the gap has 8 slots right behind it, the
    right segment is empty, and the block the object points to is live with
    [capacity() = length + 8] slots. *)
Theorem X1_ctor_string_view_holds_the_text (str : list ascii) (h : heap) :
  Z.of_nat (length str) + 8 < 2 ^ 64 ->
  let s := ctor_string_view str h in
  to_str (fst s) (snd s) = str /\
  size (fst s) = Z.of_nat (length str) /\
  gap_size (fst s) = 8 /\
  capacity (fst s) = Z.of_nat (length str) + 8 /\
  right_length (fst s) = 0 /\
  layout_ok (fst s) /\
  owns_block (snd s) (fst s).
Proof.
  intros Hlen. cbn zeta. unfold ctor_string_view.
  cbn [allocate uninitialized_move_n_from fst snd].
  rewrite Nat2Z.id, firstn_all, (Z.max_r 0) by lia.
  set (b := brk h). set (n := Z.of_nat (length str)) in *.
  assert (Hsz : size (Gapbuffer.mk b (b + n) (b + n + 8) (b + n + 8)) = n).
  { unfold size. cbn. rewrite wrap64_small by lia. lia. }
  unfold owns_block, to_str, gap_size, capacity, right_length, layout_ok.
  cbn [fst snd bufferStart gapStart gapEnd bufferEnd cells allocs].
  replace (b + n - b) with n by lia.
  replace (b + n + 8 - (b + n + 8)) with 0 by lia.
  replace (b + n + 8 - (b + n)) with 8 by lia.
  replace (b + n + 8 - b) with (n + 8) by lia.
  rewrite !wrap64_small by lia.
  split; [| split; [exact Hsz | split; [reflexivity | split; [reflexivity |
           split; [reflexivity | split; [lia | apply lookup_insert_eq]]]]]].
  unfold n. rewrite Nat2Z.id. change (Z.to_nat 0) with O.
  cbn [read_cells]. rewrite app_nil_r. apply read_write_list.
Qed.

(** X1 at ["hello"]. *)
Lemma X1_ctor_string_view_holds_the_text_witness :
  Z.of_nat (length (chars "hello")) + 8 < 2 ^ 64 /\
  to_str (fst (ctor_string_view (chars "hello") heap0))
         (snd (ctor_string_view (chars "hello") heap0)) = chars "hello" /\
  capacity (fst (ctor_string_view (chars "hello") heap0)) = 13.
Proof.
  assert (H : Z.of_nat (length (chars "hello")) + 8 < 2 ^ 64)
    by (vm_compute; reflexivity).
  destruct (X1_ctor_string_view_holds_the_text (chars "hello") heap0 H)
    as (Hstr & _ & _ & Hcap & _).
  split; [exact H |]. split; [exact Hstr | exact Hcap].
Defined.

(** X2: [Gapbuffer(length)], and [Gapbuffer()] as the case [length = 32],
    give a buffer without content: the text is empty, [size()] is 0,
    [empty()] holds, the gap spans all [length] slots, every slot is the
    zero character, and the block is live with [capacity() = length]. *)
Theorem X2_ctor_length_is_empty (n : Z) (h : heap) :
  0 <= n < 2 ^ 64 ->
  let s := ctor_length n h in
  ctor_default h = ctor_length 32 h /\
  to_str (fst s) (snd s) = [] /\
  size (fst s) = 0 /\ empty (fst s) = true /\
  gap_size (fst s) = n /\ capacity (fst s) = n /\
  layout_ok (fst s) /\
  zeroed (cells (snd s)) (bufferStart (fst s)) (bufferEnd (fst s)) /\
  owns_block (snd s) (fst s).
Proof.
  intros Hn. cbn zeta. split; [reflexivity |].
  unfold ctor_length.
  cbn [allocate uninitialized_value_construct_n fst snd].
  rewrite (Z.max_r 0) by lia. set (b := brk h).
  unfold owns_block, to_str, size, empty, gap_size, capacity, layout_ok.
  cbn [fst snd bufferStart gapStart gapEnd bufferEnd cells allocs].
  replace (b - b) with 0 by lia.
  replace (b + n - (b + n)) with 0 by lia.
  replace (b + n - b - (b + n - b)) with 0 by lia.
  replace (b + n - b) with n by lia.
  rewrite !wrap64_small by lia. rewrite Z.eqb_refl.
  repeat split; try reflexivity; try lia.
  - intros a Ha. rewrite fill_cells_spec.
    destruct (Z.leb_spec b a), (Z.ltb_spec a (b + Z.of_nat (Z.to_nat n)));
      cbn; try reflexivity; lia.
  - apply lookup_insert_eq.
Qed.

(** X2 at [Gapbuffer(10)]. *)
Lemma X2_ctor_length_is_empty_witness :
  0 <= 10 < 2 ^ 64 /\
  capacity (fst (ctor_length 10 heap0)) = 10 /\
  size (fst (ctor_length 10 heap0)) = 0.
Proof.
  assert (H : 0 <= 10 < 2 ^ 64) by lia.
  destruct (X2_ctor_length_is_empty 10 heap0 H)
    as (_ & _ & Hsz & _ & _ & Hcap & _).
  split; [exact H |]. split; [exact Hcap | exact Hsz].
Defined.

(** X3: [Gapbuffer(std::initializer_list<char> lst)] holds the text [lst],
    but it allocates [lst.size()] slots only and still places an 8-slot gap
    behind the text: [capacity()] is 8 more than the block has, and the gap
    begins exactly where the block ends. *)
Theorem X3_ctor_initializer_list_block_is_short (lst : list ascii) (h : heap) :
  Z.of_nat (length lst) + 8 < 2 ^ 64 ->
  let s := ctor_initializer_list lst h in
  to_str (fst s) (snd s) = lst /\
  size (fst s) = Z.of_nat (length lst) /\
  capacity (fst s) = Z.of_nat (length lst) + 8 /\
  allocs (snd s) !! bufferStart (fst s) = Some (Z.of_nat (length lst)) /\
  gapStart (fst s) = bufferStart (fst s) + Z.of_nat (length lst) /\
  gap_size (fst s) = 8 /\
  ~ owns_block (snd s) (fst s).
Proof.
  intros Hlen. cbn zeta. unfold ctor_initializer_list.
  cbn [allocate uninitialized_move_n_from fst snd].
  rewrite Nat2Z.id, firstn_all, (Z.max_r 0) by lia.
  set (b := brk h). set (n := Z.of_nat (length lst)) in *.
  unfold owns_block, to_str, size, gap_size, capacity.
  cbn [fst snd bufferStart gapStart gapEnd bufferEnd cells allocs].
  replace (b + n - b) with n by lia.
  replace (b + n + 8 - (b + n + 8)) with 0 by lia.
  replace (b + n + 8 - (b + n)) with 8 by lia.
  replace (b + n + 8 - b - 8) with n by lia.
  replace (b + n + 8 - b) with (n + 8) by lia.
  rewrite !wrap64_small by lia. rewrite lookup_insert_eq.
  repeat split; try reflexivity.
  - unfold n. rewrite Nat2Z.id. change (Z.to_nat 0) with O.
    cbn [read_cells]. rewrite app_nil_r. apply read_write_list.
  - intros Heq. injection Heq as Heq. lia.
Qed.

(** X3 at the list ['a'; 'b']. *)
Lemma X3_ctor_initializer_list_block_is_short_witness :
  Z.of_nat (length (chars "ab")) + 8 < 2 ^ 64 /\
  capacity (fst (ctor_initializer_list (chars "ab") heap0)) = 10 /\
  allocs (snd (ctor_initializer_list (chars "ab") heap0))
    !! bufferStart (fst (ctor_initializer_list (chars "ab") heap0)) = Some 2.
Proof.
  assert (H : Z.of_nat (length (chars "ab")) + 8 < 2 ^ 64)
    by (vm_compute; reflexivity).
  destruct (X3_ctor_initializer_list_block_is_short (chars "ab") heap0 H)
    as (_ & _ & Hcap & Hblk & _).
  split; [exact H |]. split; [exact Hcap | exact Hblk].
Defined.

Lemma read_cells_shift n p p' m m' :
  (forall k, 0 <= k < Z.of_nat n -> m' (p' + k) = m (p + k)) ->
  read_cells n p' m' = read_cells n p m.
Proof.
  revert p p'. induction n as [| n IH]; intros p p' Hk; [reflexivity |].
  cbn [read_cells]. f_equal.
  - specialize (Hk 0). rewrite !Z.add_0_r in Hk. apply Hk. lia.
  - apply IH. intros k Hrange.
    replace (p' + 1 + k) with (p' + (k + 1)) by lia.
    replace (p + 1 + k) with (p + (k + 1)) by lia.
    apply Hk. lia.
Qed.

(** X4: the copy constructor makes a deep copy of the storage: a fresh
    live block of the same capacity whose bytes equal the source's block
    byte for byte, with the source's bytes untouched and [gapEnd] at the
    same offset.  But [gapStart] is taken from the end of the copied range,
    so the copy's left segment spans the whole block: its text is every
    slot of the source's block followed by the right segment once more. *)
Theorem X4_ctor_copy_copies_the_block (other : Gapbuffer.t) (h : heap) :
  layout_ok other -> bufferEnd other <= brk h ->
  let s := ctor_copy other h in
  bufferStart (fst s) = brk h /\
  capacity (fst s) = capacity other /\
  gapEnd (fst s) - bufferStart (fst s) = gapEnd other - bufferStart other /\
  gapStart (fst s) = bufferEnd (fst s) /\
  (forall k, 0 <= k < capacity other ->
     load (snd s) (bufferStart (fst s) + k) = load h (bufferStart other + k)) /\
  (forall a, a < brk h -> load (snd s) a = load h a) /\
  owns_block (snd s) (fst s) /\
  to_str (fst s) (snd s)
  = read_cells (Z.to_nat (capacity other)) (bufferStart other) (cells h)
    ++ right_segment other h.
Proof.
  intros Hl Hbrk. cbn zeta. pose proof Hl as (H1 & H2 & H3 & H4).
  destruct (layout_ok_counters other Hl) as (_ & _ & Hcap).
  unfold ctor_copy. cbn [allocate uninitialized_copy_n fst snd].
  rewrite (Z.max_r 0) by lia.
  set (b := brk h). set (c := capacity other) in *.
  destruct (copy_cells_behind (Z.to_nat c) (bufferStart other) b (cells h))
    as [Hlow Hcopy]; [lia |].
  set (m' := copy_cells (Z.to_nat c) (bufferStart other) b (cells h)) in *.
  assert (Hc' : capacity (Gapbuffer.mk b (b + c)
                  (b + (gapEnd other - bufferStart other)) (b + c)) = c).
  { unfold capacity. cbn. replace (b + c - b) with c by lia.
    apply wrap64_small. lia. }
  unfold owns_block, load, to_str, right_segment, right_length.
  cbn [fst snd bufferStart gapStart gapEnd bufferEnd cells allocs].
  rewrite Hc'.
  split; [reflexivity |]. split; [reflexivity |]. split; [lia |].
  split; [reflexivity |].
  split; [intros k Hk; apply Hcopy; lia |].
  split; [exact Hlow |].
  split; [apply lookup_insert_eq |].
  replace (b + c - b) with c by lia.
  replace (b + c - (b + (gapEnd other - bufferStart other)))
    with (bufferEnd other - gapEnd other) by lia.
  rewrite !wrap64_small by lia.
  f_equal.
  - apply read_cells_shift. intros k Hk. apply Hcopy. lia.
  - apply read_cells_shift. intros k Hk.
    replace (b + (gapEnd other - bufferStart other) + k)
      with (b + (gapEnd other - bufferStart other + k)) by lia.
    rewrite Hcopy by lia. f_equal. lia.
Qed.

(** X4 at a copy of ["ab"]: ten slots are copied, and the copy's text is
    those ten slots. *)
Lemma X4_ctor_copy_copies_the_block_witness :
  let s := ctor_string_view (chars "ab") heap0 in
  let c := ctor_copy (fst s) (snd s) in
  layout_ok (fst s) /\ bufferEnd (fst s) <= brk (snd s) /\
  capacity (fst c) = 10 /\
  to_str (fst c) (snd c) = chars "abxxxxxxxx".
Proof.
  cbn zeta. pose (s := ctor_string_view (chars "ab") heap0).
  assert (Hl : layout_ok (fst s)) by (vm_compute; intuition discriminate).
  assert (Hb : bufferEnd (fst s) <= brk (snd s)) by (vm_compute; discriminate).
  destruct (X4_ctor_copy_copies_the_block (fst s) (snd s) Hl Hb)
    as (_ & Hcap & _ & _ & _ & _ & _ & Hstr).
  split; [exact Hl |]. split; [exact Hb |].
  split; [etransitivity; [exact Hcap | vm_compute; reflexivity] |].
  etransitivity; [exact Hstr | vm_compute; reflexivity].
Defined.

(** ** Element access *)

Lemma subscript_in_range (g : Gapbuffer.t) (h : heap) (i : Z) :
  layout_ok g -> 0 <= i < size g ->
  subscript i g = (if i <? left_length g then bufferStart g + i
                   else gapEnd g + (i - left_length g)) /\
  to_str g h !! Z.to_nat i = Some (load h (subscript i g)).
Proof.
  intros Hl Hi. pose proof Hl as (H1 & H2 & H3 & H4).
  destruct (layout_ok_counters g Hl) as (Hsz & _ & _).
  unfold left_length, right_length in *.
  assert (Hsub : subscript i g = (if i <? gapStart g - bufferStart g
                                  then bufferStart g + i
                                  else gapEnd g + (i - (gapStart g - bufferStart g)))).
  { unfold subscript. rewrite (wrap64_small (gapStart g - bufferStart g)) by lia.
    destruct (Z.ltb_spec i (gapStart g - bufferStart g)); [reflexivity |].
    rewrite wrap64_small by lia. reflexivity. }
  split; [exact Hsub |]. rewrite Hsub.
  rewrite to_str_segments by exact Hl.
  unfold left_segment, right_segment, left_length, right_length, load.
  destruct (Z.ltb_spec i (gapStart g - bufferStart g)) as [Hb | Hb].
  - rewrite lookup_app_l by (rewrite read_cells_length; lia).
    rewrite read_cells_lookup by lia. do 2 f_equal. lia.
  - rewrite lookup_app_r by (rewrite read_cells_length; lia).
    rewrite read_cells_length, read_cells_lookup by lia.
    do 2 f_equal. lia.
Qed.

(** X5: inside the bounds the unchecked [operator[]] and the checked
    [at()] name the same slot; the slot holds the [i]-th character of
    [to_str()] and never lies inside the gap. *)
Theorem X5_subscript_agrees_with_at (g : Gapbuffer.t) (h : heap) (i : Z) :
  layout_ok g -> 0 <= i < size g ->
  at_ i g = Ok (subscript i g) /\
  to_str g h !! Z.to_nat i = Some (load h (subscript i g)) /\
  (bufferStart g <= subscript i g < gapStart g \/
   gapEnd g <= subscript i g < bufferEnd g).
Proof.
  intros Hl Hi. pose proof Hl as (H1 & H2 & H3 & H4).
  destruct (layout_ok_counters g Hl) as (Hsz & _ & _).
  destruct (subscript_in_range g h i Hl Hi) as [Hsub Hlook].
  split; [| split; [exact Hlook |]].
  - unfold at_, subscript.
    destruct (Z.leb_spec (size g) i); [lia |].
    destruct (i <? wrap64 (gapStart g - bufferStart g)); reflexivity.
  - rewrite Hsub. unfold left_length, right_length in *.
    destruct (Z.ltb_spec i (gapStart g - bufferStart g)); lia.
Qed.

(** X5 on ["ab"] with the cursor moved between the letters: index 1 is
    the slot at [gapEnd]. *)
Lemma X5_subscript_agrees_with_at_witness :
  let s := retreat (ctor_string_view (chars "ab") heap0) in
  layout_ok (fst s) /\ 0 <= 1 < size (fst s) /\
  subscript 1 (fst s) = gapEnd (fst s) /\
  at_ 1 (fst s) = Ok (subscript 1 (fst s)).
Proof.
  cbn zeta. pose (s := retreat (ctor_string_view (chars "ab") heap0)).
  assert (Hl : layout_ok (fst s)) by (vm_compute; intuition discriminate).
  assert (Hi : 0 <= 1 < size (fst s)) by (vm_compute; split; [discriminate | reflexivity]).
  destruct (X5_subscript_agrees_with_at (fst s) (snd s) 1 Hl Hi) as (Hat & _).
  split; [exact Hl |]. split; [exact Hi |].
  split; [vm_compute; reflexivity | exact Hat].
Defined.

(** X6: [front()] throws exactly when the buffer has no content (both
    segments empty); otherwise it returns the slot of the first character
    of [to_str()], which is the first slot behind the gap when the cursor is
    at the very start. *)
Theorem X6_front_is_the_first_character (g : Gapbuffer.t) (h : heap) :
  layout_ok g ->
  (front g = Throw (out_of_range "Accessing front element in an empty Gapvector")
   <-> size g = 0) /\
  (0 < size g ->
   front g = Ok (subscript 0 g) /\
   to_str g h !! 0%nat = Some (load h (subscript 0 g))).
Proof.
  intros Hl. pose proof Hl as (H1 & H2 & H3 & H4).
  destruct (layout_ok_counters g Hl) as (Hsz & _ & _).
  unfold left_length, right_length in Hsz.
  split.
  - unfold front.
    destruct (Z.eqb_spec (gapStart g) (bufferStart g)) as [Ha | Ha];
      destruct (Z.eqb_spec (gapEnd g) (bufferEnd g)) as [Hb | Hb]; cbn [andb].
    + split; [intros _; lia | reflexivity].
    + split; [| lia].
      destruct (bufferStart g =? gapStart g); discriminate.
    + split; [| lia].
      destruct (bufferStart g =? gapStart g); discriminate.
    + split; [| lia].
      destruct (bufferStart g =? gapStart g); discriminate.
  - intros Hpos.
    destruct (subscript_in_range g h 0 Hl) as [Hsub Hlook]; [lia |].
    split; [| exact Hlook].
    rewrite Hsub. unfold front, left_length.
    destruct (Z.eqb_spec (gapStart g) (bufferStart g)) as [Ha | Ha];
      destruct (Z.eqb_spec (gapEnd g) (bufferEnd g)) as [Hb | Hb]; cbn [andb];
      try lia;
      destruct (Z.eqb_spec (bufferStart g) (gapStart g));
      destruct (Z.ltb_spec 0 (gapStart g - bufferStart g));
      try lia; f_equal; lia.
Qed.

(** X6 on ["ab"] with the cursor moved to the very start. *)
Lemma X6_front_is_the_first_character_witness :
  let s := retreat (retreat (ctor_string_view (chars "ab") heap0)) in
  layout_ok (fst s) /\ 0 < size (fst s) /\
  front (fst s) = Ok (gapEnd (fst s)).
Proof.
  cbn zeta.
  pose (s := retreat (retreat (ctor_string_view (chars "ab") heap0))).
  assert (Hl : layout_ok (fst s)) by (vm_compute; intuition discriminate).
  assert (Hp : 0 < size (fst s)) by (vm_compute; reflexivity).
  destruct (X6_front_is_the_first_character (fst s) (snd s) Hl) as [_ Hf].
  destruct (Hf Hp) as [Hfront _].
  split; [exact Hl |]. split; [exact Hp | exact Hfront].
Defined.

(** X7: [back()] throws exactly when the buffer has no content; otherwise
    it returns the slot of the last character of [to_str()], which is the
    last slot before the gap when the cursor is at the very end. *)
Theorem X7_back_is_the_last_character (g : Gapbuffer.t) (h : heap) :
  layout_ok g ->
  (back g = Throw (out_of_range "Accessing back element in an empty Gapvector")
   <-> size g = 0) /\
  (0 < size g ->
   back g = Ok (subscript (size g - 1) g) /\
   to_str g h !! Z.to_nat (size g - 1) = Some (load h (subscript (size g - 1) g)) /\
   length (to_str g h) = S (Z.to_nat (size g - 1))).
Proof.
  intros Hl. pose proof Hl as (H1 & H2 & H3 & H4).
  destruct (layout_ok_counters g Hl) as (Hsz & _ & _).
  pose proof (to_str_length g h Hl) as Hlen.
  unfold left_length, right_length in Hsz.
  split.
  - unfold back.
    destruct (Z.eqb_spec (gapStart g) (bufferStart g)) as [Ha | Ha];
      destruct (Z.eqb_spec (gapEnd g) (bufferEnd g)) as [Hb | Hb]; cbn [andb].
    + split; [intros _; lia | reflexivity].
    + split; [| lia].
      destruct (bufferEnd g =? gapEnd g); discriminate.
    + split; [| lia].
      destruct (bufferEnd g =? gapEnd g); discriminate.
    + split; [| lia].
      destruct (bufferEnd g =? gapEnd g); discriminate.
  - intros Hpos.
    destruct (subscript_in_range g h (size g - 1) Hl) as [Hsub Hlook]; [lia |].
    split; [| split; [exact Hlook | lia]].
    rewrite Hsub. unfold back, left_length.
    destruct (Z.eqb_spec (gapStart g) (bufferStart g)) as [Ha | Ha];
      destruct (Z.eqb_spec (gapEnd g) (bufferEnd g)) as [Hb | Hb]; cbn [andb];
      try lia;
      destruct (Z.eqb_spec (bufferEnd g) (gapEnd g));
      destruct (Z.ltb_spec (size g - 1) (gapStart g - bufferStart g));
      try lia; f_equal; lia.
Qed.

(** X7 on ["ab"] as constructed, the cursor at the very end. *)
Lemma X7_back_is_the_last_character_witness :
  let s := ctor_string_view (chars "ab") heap0 in
  layout_ok (fst s) /\ 0 < size (fst s) /\
  back (fst s) = Ok (gapStart (fst s) - 1).
Proof.
  cbn zeta. pose (s := ctor_string_view (chars "ab") heap0).
  assert (Hl : layout_ok (fst s)) by (vm_compute; intuition discriminate).
  assert (Hp : 0 < size (fst s)) by (vm_compute; reflexivity).
  destruct (X7_back_is_the_last_character (fst s) (snd s) Hl) as [_ Hf].
  destruct (Hf Hp) as [Hback _].
  split; [exact Hl |]. split; [exact Hp | exact Hback].
Defined.

(** ** Equality and [clear] *)

(** X8: [operator==] looks at the text only: two buffers with ordered
    pointers are equal exactly when their [to_str()] agree, whatever their
    capacities and cursor positions. *)
Theorem X8_equal_compares_the_text (a b : Gapbuffer.t) (h : heap) :
  layout_ok a -> layout_ok b ->
  (equal a b h = true <-> to_str a h = to_str b h).
Proof.
  intros Ha Hb. unfold equal.
  pose proof (to_str_length a h Ha) as Hla.
  pose proof (to_str_length b h Hb) as Hlb.
  destruct (Z.eqb_spec (size a) (size b)) as [Hs | Hs]; cbn [negb].
  - destruct (bool_decide_reflect (to_str a h = to_str b h)) as [He | He];
      cbn [negb]; split; intros H; try assumption; try reflexivity;
      try discriminate; contradiction.
  - split; [discriminate |]. intros He. rewrite He in Hla. lia.
Qed.

(** X8 on ["x"] built from a string (9 slots) and ["x"] pushed into a
    default buffer (32 slots). *)
Lemma X8_equal_compares_the_text_witness :
  let '(a, h) := ctor_string_view (chars "x") heap0 in
  let '(b, h) := push_back "x" (ctor_default h) in
  layout_ok a /\ layout_ok b /\ capacity a <> capacity b /\
  equal a b h = true.
Proof.
  pose (s1 := ctor_string_view (chars "x") heap0).
  pose (s2 := push_back "x" (ctor_default (snd s1))).
  assert (Ha : layout_ok (fst s1)) by (vm_compute; intuition discriminate).
  assert (Hb : layout_ok (fst s2)) by (vm_compute; intuition discriminate).
  assert (Hstr : to_str (fst s1) (snd s2) = to_str (fst s2) (snd s2))
    by (vm_compute; reflexivity).
  pose proof (proj2 (X8_equal_compares_the_text (fst s1) (fst s2) (snd s2) Ha Hb)
                    Hstr) as Heq.
  change (layout_ok (fst s1) /\ layout_ok (fst s2) /\
          capacity (fst s1) <> capacity (fst s2) /\
          equal (fst s1) (fst s2) (snd s2) = true).
  split; [exact Ha |]. split; [exact Hb |].
  split; [vm_compute; discriminate | exact Heq].
Defined.

(** X9: [clear()] touches no byte and no allocation: it resets the gap to
    the whole block, so the text is empty, [size()] is 0, [capacity()] is
    kept, and [pop_back()] and [front()] fail afterwards.  It also restores
    the ordering of the pointers, whatever the gap pointers were. *)
Theorem X9_clear_empties_and_keeps_capacity (g : Gapbuffer.t) (h : heap) :
  bufferStart g <= bufferEnd g -> bufferEnd g - bufferStart g < 2 ^ 64 ->
  let s' := clear (g, h) in
  snd s' = h /\
  to_str (fst s') (snd s') = [] /\
  size (fst s') = 0 /\ empty (fst s') = true /\
  capacity (fst s') = capacity g /\ gap_size (fst s') = capacity g /\
  layout_ok (fst s') /\
  pop_back s' = (Throw (out_of_range "Buffer is empty"), s') /\
  front (fst s')
  = Throw (out_of_range "Accessing front element in an empty Gapvector").
Proof.
  intros Hle Hcap. cbn zeta. unfold clear, destroy_n. cbn [fst snd].
  unfold to_str, size, empty, capacity, gap_size, layout_ok, front.
  cbn [bufferStart gapStart gapEnd bufferEnd].
  rewrite !Z.sub_diag, !Z.eqb_refl. cbn [andb].
  rewrite (wrap64_small 0) by lia. change (Z.to_nat 0) with O.
  repeat split; try reflexivity; try lia.
  apply pop_back_empty. reflexivity.
Qed.

(** X9 on ["hello"]. *)
Lemma X9_clear_empties_and_keeps_capacity_witness :
  let s := ctor_string_view (chars "hello") heap0 in
  bufferStart (fst s) <= bufferEnd (fst s) /\
  bufferEnd (fst s) - bufferStart (fst s) < 2 ^ 64 /\
  size (fst (clear s)) = 0 /\ capacity (fst (clear s)) = 13.
Proof.
  cbn zeta. pose (s := ctor_string_view (chars "hello") heap0).
  assert (H1 : bufferStart (fst s) <= bufferEnd (fst s))
    by (vm_compute; discriminate).
  assert (H2 : bufferEnd (fst s) - bufferStart (fst s) < 2 ^ 64)
    by (vm_compute; reflexivity).
  destruct (X9_clear_empties_and_keeps_capacity (fst s) (snd s) H1 H2)
    as (_ & _ & Hsz & _ & Hcap & _).
  split; [exact H1 |]. split; [exact H2 |].
  split; [exact Hsz |]. etransitivity; [exact Hcap | vm_compute; reflexivity].
Defined.

(** ** Editing at the cursor *)

Lemma push_back_roomy_segments (x : ascii) (g : Gapbuffer.t) (h : heap) :
  layout_ok g -> 2 <= gapEnd g - gapStart g ->
  let s' := push_back x (g, h) in
  fst s' = set_gapStart (gapStart g + 1) g /\
  layout_ok (fst s') /\
  left_segment (fst s') (snd s') = left_segment g h ++ [x] /\
  right_segment (fst s') (snd s') = right_segment g h /\
  allocs (snd s') = allocs h.
Proof.
  intros Hl Hgap. cbn zeta. pose proof Hl as (H1 & H2 & H3 & H4).
  rewrite push_back_roomy by lia. cbn [fst snd].
  split; [reflexivity |]. split; [layout |].
  unfold left_segment, right_segment, left_length, right_length, store.
  cbn [bufferStart gapStart gapEnd bufferEnd set_gapStart cells allocs].
  split; [| split; [| reflexivity]].
  - replace (Z.to_nat (gapStart g + 1 - bufferStart g))
      with (S (Z.to_nat (gapStart g - bufferStart g))) by lia.
    rewrite read_cells_snoc. f_equal.
    + apply read_cells_ext. intros a Ha. apply write_ne. lia.
    + replace (bufferStart g + Z.of_nat (Z.to_nat (gapStart g - bufferStart g)))
        with (gapStart g) by lia.
      rewrite write_eq. reflexivity.
  - apply read_cells_ext. intros a Ha. apply write_ne. lia.
Qed.

(** X10: with two free slots or more, [push_back(x)] inserts [x] at the
    cursor: the text becomes the left segment, [x], the right segment;
    [size()] grows by one, [capacity()] and the allocations stay, and the
    pointers stay ordered. *)
Theorem X10_push_back_inserts_at_the_cursor
  (x : ascii) (g : Gapbuffer.t) (h : heap) :
  layout_ok g -> 2 <= gapEnd g - gapStart g ->
  let s' := push_back x (g, h) in
  to_str (fst s') (snd s') = left_segment g h ++ x :: right_segment g h /\
  size (fst s') = size g + 1 /\
  capacity (fst s') = capacity g /\
  allocs (snd s') = allocs h /\
  layout_ok (fst s').
Proof.
  intros Hl Hgap. cbn zeta. pose proof Hl as (H1 & H2 & H3 & H4).
  destruct (push_back_roomy_segments x g h Hl Hgap)
    as (Hg & Hl' & Hleft & Hright & Hal).
  cbn zeta in *.
  destruct (layout_ok_counters _ Hl') as (Hsz' & _ & Hcap').
  destruct (layout_ok_counters g Hl) as (Hsz & _ & Hcap).
  split; [| split; [| split; [| split; [exact Hal | exact Hl']]]].
  - rewrite to_str_segments by exact Hl'. rewrite Hleft, Hright, <- app_assoc.
    reflexivity.
  - rewrite Hsz', Hsz, Hg. unfold left_length, right_length. cbn. lia.
  - rewrite Hcap', Hcap, Hg. cbn. lia.
Qed.

(** X10 on ["ab"] with the cursor between the letters. *)
Lemma X10_push_back_inserts_at_the_cursor_witness :
  let s := retreat (ctor_string_view (chars "ab") heap0) in
  layout_ok (fst s) /\ 2 <= gapEnd (fst s) - gapStart (fst s) /\
  to_str (fst (push_back "-" s)) (snd (push_back "-" s)) = chars "a-b".
Proof.
  cbn zeta. pose (s := retreat (ctor_string_view (chars "ab") heap0)).
  assert (Hl : layout_ok (fst s)) by (vm_compute; intuition discriminate).
  assert (Hg : 2 <= gapEnd (fst s) - gapStart (fst s))
    by (vm_compute; discriminate).
  destruct (X10_push_back_inserts_at_the_cursor "-" (fst s) (snd s) Hl Hg)
    as (Hstr & _).
  split; [exact Hl |]. split; [exact Hg |].
  etransitivity; [exact Hstr | vm_compute; reflexivity].
Defined.

Lemma insert_roomy_segments (v : list ascii) :
  forall (g : Gapbuffer.t) (h : heap),
    layout_ok g -> Z.of_nat (length v) < gapEnd g - gapStart g ->
    let s' := insert v (g, h) in
    fst s' = set_gapStart (gapStart g + Z.of_nat (length v)) g /\
    layout_ok (fst s') /\
    left_segment (fst s') (snd s') = left_segment g h ++ v /\
    right_segment (fst s') (snd s') = right_segment g h.
Proof.
  induction v as [| x v IH]; intros g h Hl Hgap; cbn zeta.
  - cbn [insert fold_left fst snd length]. rewrite Z.add_0_r, set_gapStart_same, app_nil_r.
    split; [reflexivity | split; [exact Hl | split; reflexivity]].
  - cbn [length] in Hgap.
    destruct (push_back_roomy_segments x g h Hl) as (Hg & Hl' & Hleft & Hright & _);
      [lia |].
    change (insert (x :: v) (g, h)) with (insert v (push_back x (g, h))).
    destruct (push_back x (g, h)) as [g1 h1]. cbn [fst snd] in *.
    destruct (IH g1 h1 Hl') as (Hg2 & Hl2 & Hleft2 & Hright2).
    { rewrite Hg. cbn. lia. }
    cbn zeta in *. split; [| split; [exact Hl2 | split]].
    + rewrite Hg2, Hg. unfold set_gapStart. cbn [bufferStart gapStart gapEnd bufferEnd].
      f_equal. change (length (x :: v)) with (S (length v)). lia.
    + rewrite Hleft2, Hleft, <- app_assoc. reflexivity.
    + rewrite Hright2, Hright. reflexivity.
Qed.

(** X11: [insert(text)] with room to spare (fewer characters than free
    slots) puts the whole text at the cursor, in order: the result reads
    left segment, [text], right segment, and [size()] grows by the length
    of the text. *)
Theorem X11_insert_puts_the_text_at_the_cursor
  (v : list ascii) (g : Gapbuffer.t) (h : heap) :
  layout_ok g -> Z.of_nat (length v) < gapEnd g - gapStart g ->
  let s' := insert v (g, h) in
  to_str (fst s') (snd s') = left_segment g h ++ v ++ right_segment g h /\
  size (fst s') = size g + Z.of_nat (length v) /\
  capacity (fst s') = capacity g /\
  layout_ok (fst s').
Proof.
  intros Hl Hgap. cbn zeta.
  destruct (insert_roomy_segments v g h Hl Hgap) as (Hg & Hl' & Hleft & Hright).
  cbn zeta in *.
  destruct (layout_ok_counters _ Hl') as (Hsz' & _ & Hcap').
  destruct (layout_ok_counters g Hl) as (Hsz & _ & Hcap).
  split; [| split; [| split; [| exact Hl']]].
  - rewrite to_str_segments by exact Hl'. rewrite Hleft, Hright, <- app_assoc.
    reflexivity.
  - rewrite Hsz', Hsz, Hg. unfold left_length, right_length. cbn. lia.
  - rewrite Hcap', Hcap, Hg. cbn. lia.
Qed.

(** X11 on ["ab"] with the cursor between the letters. *)
Lemma X11_insert_puts_the_text_at_the_cursor_witness :
  let s := retreat (ctor_string_view (chars "ab") heap0) in
  layout_ok (fst s) /\
  Z.of_nat (length (chars "xyz")) < gapEnd (fst s) - gapStart (fst s) /\
  to_str (fst (insert (chars "xyz") s)) (snd (insert (chars "xyz") s))
  = chars "axyzb".
Proof.
  cbn zeta. pose (s := retreat (ctor_string_view (chars "ab") heap0)).
  assert (Hl : layout_ok (fst s)) by (vm_compute; intuition discriminate).
  assert (Hg : Z.of_nat (length (chars "xyz")) < gapEnd (fst s) - gapStart (fst s))
    by (vm_compute; reflexivity).
  destruct (X11_insert_puts_the_text_at_the_cursor (chars "xyz") (fst s) (snd s) Hl Hg)
    as (Hstr & _).
  split; [exact Hl |]. split; [exact Hg |].
  etransitivity; [exact Hstr | vm_compute; reflexivity].
Defined.

(** X12: [pop_back()] with a non-empty left segment removes the character
    just before the cursor and returns it: the text before the call is the
    text after it with the returned character put back at the cursor;
    [size()] drops by one and no byte changes. *)
Theorem X12_pop_back_removes_before_the_cursor (g : Gapbuffer.t) (h : heap) :
  layout_ok g -> 1 <= left_length g ->
  let r := pop_back (g, h) in
  let g' := fst (snd r) in
  fst r = Ok (load h (gapStart g - 1)) /\
  snd (snd r) = h /\
  to_str g h = left_segment g' h ++ load h (gapStart g - 1) :: right_segment g' h /\
  right_segment g' h = right_segment g h /\
  size g' = size g - 1 /\
  capacity g' = capacity g /\
  layout_ok g'.
Proof.
  intros Hl Hleft. cbn zeta. pose proof Hl as (H1 & H2 & H3 & H4).
  unfold left_length in Hleft.
  rewrite pop_back_nonempty by lia. cbn [fst snd].
  assert (Hl' : layout_ok (set_gapStart (gapStart g - 1) g)) by layout.
  destruct (layout_ok_counters _ Hl') as (Hsz' & _ & Hcap').
  destruct (layout_ok_counters g Hl) as (Hsz & _ & Hcap).
  split; [reflexivity |]. split; [reflexivity |].
  split; [| split; [reflexivity | split; [| split; [| exact Hl']]]].
  - rewrite to_str_segments by exact Hl.
    unfold left_segment, right_segment, left_length, right_length, load.
    cbn [bufferStart gapStart gapEnd bufferEnd set_gapStart].
    replace (Z.to_nat (gapStart g - bufferStart g))
      with (S (Z.to_nat (gapStart g - 1 - bufferStart g))) by lia.
    rewrite read_cells_snoc, <- app_assoc. cbn [app]. do 3 f_equal. lia.
  - rewrite Hsz', Hsz. unfold left_length, right_length. cbn. lia.
  - rewrite Hcap', Hcap. cbn. lia.
Qed.

(** X12 on ["hello"]. *)
Lemma X12_pop_back_removes_before_the_cursor_witness :
  let s := ctor_string_view (chars "hello") heap0 in
  layout_ok (fst s) /\ 1 <= left_length (fst s) /\
  fst (pop_back s) = Ok "o"%char /\
  size (fst (snd (pop_back s))) = 4.
Proof.
  cbn zeta. pose (s := ctor_string_view (chars "hello") heap0).
  assert (Hl : layout_ok (fst s)) by (vm_compute; intuition discriminate).
  assert (Hn : 1 <= left_length (fst s)) by (vm_compute; discriminate).
  destruct (X12_pop_back_removes_before_the_cursor (fst s) (snd s) Hl Hn)
    as (Hret & _ & _ & _ & Hsz & _).
  split; [exact Hl |]. split; [exact Hn |].
  split; [exact Hret |].
  etransitivity; [exact Hsz | vm_compute; reflexivity].
Defined.

(** X13: with two free slots or more, [push_back(x)] followed by
    [pop_back()] returns [x] and puts the four pointers, the text and
    [size()] back as they were. *)
Theorem X13_push_back_pop_back_round_trip
  (x : ascii) (g : Gapbuffer.t) (h : heap) :
  layout_ok g -> 2 <= gapEnd g - gapStart g ->
  let r := pop_back (push_back x (g, h)) in
  fst r = Ok x /\ fst (snd r) = g /\
  to_str (fst (snd r)) (snd (snd r)) = to_str g h /\
  size (fst (snd r)) = size g.
Proof. exact (push_back_pop_back_roomy x g h). Qed.

(** X13 on ["hello"]. *)
Lemma X13_push_back_pop_back_round_trip_witness :
  let s := ctor_string_view (chars "hello") heap0 in
  layout_ok (fst s) /\ 2 <= gapEnd (fst s) - gapStart (fst s) /\
  fst (pop_back (push_back "!" s)) = Ok "!"%char /\
  to_str (fst (snd (pop_back (push_back "!" s))))
         (snd (snd (pop_back (push_back "!" s)))) = chars "hello".
Proof.
  cbn zeta. pose (s := ctor_string_view (chars "hello") heap0).
  assert (Hl : layout_ok (fst s)) by (vm_compute; intuition discriminate).
  assert (Hg : 2 <= gapEnd (fst s) - gapStart (fst s))
    by (vm_compute; discriminate).
  destruct (X13_push_back_pop_back_round_trip "!" (fst s) (snd s) Hl Hg)
    as (Hret & _ & Hstr & _).
  split; [exact Hl |]. split; [exact Hg |]. split; [exact Hret |].
  etransitivity; [exact Hstr | vm_compute; reflexivity].
Defined.

(** X14: [erase(count)] within the left segment returns the removed
    characters in pop order, that is the removed stretch reversed; inserting
    the reversed result again restores the four pointers and the text. *)
Theorem X14_erase_then_insert_restores
  (fuel : nat) (count : Z) (g : Gapbuffer.t) (h : heap) :
  layout_ok g -> 0 <= count <= left_length g -> count < 2 ^ 32 ->
  1 <= gapEnd g - gapStart g -> (Z.to_nat count < fuel)%nat ->
  let r := erase fuel count (g, h) in
  exists ret : list ascii,
    fst r = Ok ret /\
    Z.of_nat (length ret) = count /\
    left_segment g h = left_segment (fst (snd r)) (snd (snd r)) ++ rev ret /\
    right_segment g h = right_segment (fst (snd r)) (snd (snd r)) /\
    fst (insert (rev ret) (snd r)) = g /\
    to_str (fst (insert (rev ret) (snd r))) (snd (insert (rev ret) (snd r)))
    = to_str g h.
Proof.
  intros Hl Hcount H32 Hgap Hfuel. cbn zeta.
  pose proof Hl as (H1 & H2 & H3 & H4). unfold left_length in Hcount.
  unfold erase.
  rewrite (erase_loop_completes (Z.to_nat count)) by (unfold left_length; lia).
  rewrite Z2Nat.id by lia. cbn [app fst snd].
  set (stretch := read_cells (Z.to_nat count) (gapStart g - count) (cells h)).
  set (g' := set_gapStart (gapStart g - count) g).
  assert (Hl' : layout_ok g') by layout.
  assert (Hsplit : left_segment g h = left_segment g' h ++ stretch).
  { unfold left_segment, left_length, stretch.
    cbn [g' set_gapStart bufferStart gapStart].
    replace (Z.to_nat (gapStart g - bufferStart g))
      with (Z.to_nat (gapStart g - count - bufferStart g) + Z.to_nat count)%nat
      by lia.
    rewrite read_cells_app. do 2 f_equal. lia. }
  assert (Hlen : Z.of_nat (length stretch) = count)
    by (unfold stretch; rewrite read_cells_length; lia).
  exists (rev stretch). rewrite rev_involutive, length_rev.
  destruct (insert_roomy_segments stretch g' h Hl')
    as (Hg2 & Hl2 & Hleft2 & Hright2).
  { rewrite Hlen. cbn. lia. }
  cbn zeta in *.
  split; [reflexivity |]. split; [exact Hlen |]. split; [exact Hsplit |].
  split; [reflexivity |].
  assert (Hback : fst (insert stretch (g', h)) = g).
  { rewrite Hg2, Hlen. destruct g as [bs gs ge be]. unfold g', set_gapStart.
    cbn. f_equal. lia. }
  split; [exact Hback |].
  rewrite to_str_segments by exact Hl2. rewrite Hleft2, Hright2, <- Hsplit.
  rewrite to_str_segments by exact Hl. reflexivity.
Qed.

(** X14 on ["hello!"]: [erase(2)] returns ["!o"], and inserting ["o!"]
    gives ["hello!"] again. *)
Lemma X14_erase_then_insert_restores_witness :
  let s := ctor_string_view (chars "hello!") heap0 in
  layout_ok (fst s) /\ 0 <= 2 <= left_length (fst s) /\ 2 < 2 ^ 32 /\
  1 <= gapEnd (fst s) - gapStart (fst s) /\ (Z.to_nat 2 < 5)%nat /\
  fst (erase 5 2 s) = Ok (chars "!o") /\
  to_str (fst (insert (chars "o!") (snd (erase 5 2 s))))
         (snd (insert (chars "o!") (snd (erase 5 2 s)))) = chars "hello!".
Proof.
  cbn zeta. pose (s := ctor_string_view (chars "hello!") heap0).
  assert (Hl : layout_ok (fst s)) by (vm_compute; intuition discriminate).
  assert (Hc : 0 <= 2 <= left_length (fst s))
    by (vm_compute; split; discriminate).
  assert (H32 : 2 < 2 ^ 32) by lia.
  assert (Hg : 1 <= gapEnd (fst s) - gapStart (fst s))
    by (vm_compute; discriminate).
  assert (Hf : (Z.to_nat 2 < 5)%nat) by (vm_compute; lia).
  destruct (X14_erase_then_insert_restores 5 2 (fst s) (snd s) Hl Hc H32 Hg Hf)
    as (ret & Hret & _ & _ & _ & _ & Hstr).
  assert (Hval : ret = chars "!o").
  { assert (Hc2 : erase 5 2 (fst s, snd s) = erase 5 2 s) by reflexivity.
    cbn zeta in Hret. rewrite Hc2 in Hret.
    assert (He : fst (erase 5 2 s) = Ok (chars "!o")) by (vm_compute; reflexivity).
    rewrite He in Hret. injection Hret as Hret. symmetry. exact Hret. }
  subst ret.
  split; [exact Hl |]. split; [exact Hc |]. split; [exact H32 |].
  split; [exact Hg |]. split; [exact Hf |].
  split; [vm_compute; reflexivity |].
  etransitivity; [exact Hstr | vm_compute; reflexivity].
Defined.

(** ** Moving the cursor *)

(** X15: with a character behind the cursor, [advance()] moves the cursor
    one place to the right and nothing else: the text, [size()], the width
    of the gap and the ordering of the pointers are kept, the left segment
    is one longer and the right segment one shorter. *)
Theorem X15_advance_moves_the_cursor_right (g : Gapbuffer.t) (h : heap) :
  layout_ok g -> 1 <= right_length g ->
  let s' := advance (g, h) in
  to_str (fst s') (snd s') = to_str g h /\
  size (fst s') = size g /\
  left_length (fst s') = left_length g + 1 /\
  right_length (fst s') = right_length g - 1 /\
  gap_size (fst s') = gap_size g /\
  layout_ok (fst s').
Proof.
  intros Hl Hright. cbn zeta. unfold right_length in Hright.
  destruct (advance_to_str g h Hl) as [Hstr Hl']; [lia |]. cbn zeta in *.
  split; [exact Hstr |]. split; [apply (advance_size (g, h)) |].
  rewrite advance_pointers. unfold left_length, right_length, gap_size. cbn.
  split; [lia |]. split; [lia |].
  split; [f_equal; lia | rewrite advance_pointers in Hl'; exact Hl'].
Qed.

(** X15 on ["ab"] with the cursor between the letters. *)
Lemma X15_advance_moves_the_cursor_right_witness :
  let s := retreat (ctor_string_view (chars "ab") heap0) in
  layout_ok (fst s) /\ 1 <= right_length (fst s) /\
  to_str (fst (advance s)) (snd (advance s)) = chars "ab" /\
  left_length (fst (advance s)) = 2.
Proof.
  cbn zeta. pose (s := retreat (ctor_string_view (chars "ab") heap0)).
  assert (Hl : layout_ok (fst s)) by (vm_compute; intuition discriminate).
  assert (Hr : 1 <= right_length (fst s)) by (vm_compute; discriminate).
  destruct (X15_advance_moves_the_cursor_right (fst s) (snd s) Hl Hr)
    as (Hstr & _ & Hleft & _).
  split; [exact Hl |]. split; [exact Hr |].
  split; [etransitivity; [exact Hstr | vm_compute; reflexivity] |].
  etransitivity; [exact Hleft | vm_compute; reflexivity].
Defined.

(** X16: with two characters or more before the cursor, [retreat()] moves
    the cursor one place to the left and nothing else: the text, [size()],
    the width of the gap and the ordering of the pointers are kept. *)
Theorem X16_retreat_moves_the_cursor_left (g : Gapbuffer.t) (h : heap) :
  layout_ok g -> 2 <= left_length g ->
  let s' := retreat (g, h) in
  to_str (fst s') (snd s') = to_str g h /\
  size (fst s') = size g /\
  left_length (fst s') = left_length g - 1 /\
  right_length (fst s') = right_length g + 1 /\
  gap_size (fst s') = gap_size g /\
  layout_ok (fst s').
Proof.
  intros Hl Hleft. cbn zeta.
  destruct (retreat_to_str g h Hl Hleft) as [Hstr Hl']. cbn zeta in *.
  split; [exact Hstr |]. split; [apply (retreat_size (g, h)) |].
  rewrite retreat_pointers. unfold left_length, right_length, gap_size. cbn.
  split; [lia |]. split; [lia |].
  split; [f_equal; lia | rewrite retreat_pointers in Hl'; exact Hl'].
Qed.

(** X16 on ["ab"] as constructed. *)
Lemma X16_retreat_moves_the_cursor_left_witness :
  let s := ctor_string_view (chars "ab") heap0 in
  layout_ok (fst s) /\ 2 <= left_length (fst s) /\
  to_str (fst (retreat s)) (snd (retreat s)) = chars "ab" /\
  left_length (fst (retreat s)) = 1.
Proof.
  cbn zeta. pose (s := ctor_string_view (chars "ab") heap0).
  assert (Hl : layout_ok (fst s)) by (vm_compute; intuition discriminate).
  assert (Hn : 2 <= left_length (fst s)) by (vm_compute; discriminate).
  destruct (X16_retreat_moves_the_cursor_left (fst s) (snd s) Hl Hn)
    as (Hstr & _ & Hleft & _).
  split; [exact Hl |]. split; [exact Hn |].
  split; [etransitivity; [exact Hstr | vm_compute; reflexivity] |].
  etransitivity; [exact Hleft | vm_compute; reflexivity].
Defined.

(** X17: the two moves undo each other on the pointers wherever the cursor
    is, and on the text when both steps stay inside the content:
    [advance()] then [retreat()] needs a character on each side of the
    cursor, [retreat()] then [advance()] two characters before it. *)
Theorem X17_cursor_round_trips (g : Gapbuffer.t) (h : heap) :
  layout_ok g ->
  fst (retreat (advance (g, h))) = g /\
  fst (advance (retreat (g, h))) = g /\
  (1 <= left_length g -> 1 <= right_length g ->
   to_str (fst (retreat (advance (g, h)))) (snd (retreat (advance (g, h))))
   = to_str g h) /\
  (2 <= left_length g ->
   to_str (fst (advance (retreat (g, h)))) (snd (advance (retreat (g, h))))
   = to_str g h).
Proof.
  intros Hl.
  assert (Hra : fst (retreat (advance (g, h))) = g).
  { destruct (advance (g, h)) as [g1 h1] eqn:Ha.
    assert (Hg1 : g1 = fst (advance (g, h))) by (rewrite Ha; reflexivity).
    rewrite advance_pointers in Hg1. rewrite retreat_pointers, Hg1.
    destruct g as [bs gs ge be]. cbn. f_equal; lia. }
  assert (Har : fst (advance (retreat (g, h))) = g).
  { destruct (retreat (g, h)) as [g1 h1] eqn:Ha.
    assert (Hg1 : g1 = fst (retreat (g, h))) by (rewrite Ha; reflexivity).
    rewrite retreat_pointers in Hg1. rewrite advance_pointers, Hg1.
    destruct g as [bs gs ge be]. cbn. f_equal; lia. }
  split; [exact Hra |]. split; [exact Har |]. split.
  - intros H1 H2. apply (advance_retreat_to_str g h Hl H1 H2).
  - intros H2. apply (retreat_advance_to_str g h Hl H2).
Qed.

(** X17 on ["abc"] with the cursor behind ['b']. *)
Lemma X17_cursor_round_trips_witness :
  let s := retreat (ctor_string_view (chars "abc") heap0) in
  layout_ok (fst s) /\ 2 <= left_length (fst s) /\ 1 <= right_length (fst s) /\
  fst (retreat (advance s)) = fst s /\
  to_str (fst (retreat (advance s))) (snd (retreat (advance s))) = chars "abc" /\
  to_str (fst (advance (retreat s))) (snd (advance (retreat s))) = chars "abc".
Proof.
  cbn zeta. pose (s := retreat (ctor_string_view (chars "abc") heap0)).
  assert (Hl : layout_ok (fst s)) by (vm_compute; intuition discriminate).
  assert (H2 : 2 <= left_length (fst s)) by (vm_compute; discriminate).
  assert (H1 : 1 <= left_length (fst s)) by (vm_compute; discriminate).
  assert (Hr : 1 <= right_length (fst s)) by (vm_compute; discriminate).
  destruct (X17_cursor_round_trips (fst s) (snd s) Hl) as (Hp & _ & Ha & Hb).
  split; [exact Hl |]. split; [exact H2 |]. split; [exact Hr |].
  split; [exact Hp |].
  split; [etransitivity; [exact (Ha H1 Hr) | vm_compute; reflexivity] |].
  etransitivity; [exact (Hb H2) | vm_compute; reflexivity].
Defined.

(** ** Growth is tied to the moment the gap closes *)

Lemma insert_exhausted (v : list ascii) :
  forall (g : Gapbuffer.t) (h : heap),
    gapEnd g <= gapStart g ->
    fst (insert v (g, h)) = set_gapStart (gapStart g + Z.of_nat (length v)) g /\
    allocs (snd (insert v (g, h))) = allocs h.
Proof.
  induction v as [| x v IH]; intros g h Hgap.
  - cbn [insert fold_left fst snd length]. rewrite Z.add_0_r, set_gapStart_same.
    split; reflexivity.
  - change (insert (x :: v) (g, h)) with (insert v (push_back x (g, h))).
    rewrite push_back_roomy by lia.
    destruct (IH (set_gapStart (gapStart g + 1) g) (store (gapStart g) x h))
      as [Hg Hal]; [cbn; lia |].
    rewrite Hg, Hal. split; [| reflexivity].
    unfold set_gapStart. cbn [bufferStart gapStart gapEnd bufferEnd].
    f_equal. change (length (x :: v)) with (S (length v)). lia.
Qed.

(** X18: [push_back] asks for more room only at the moment [gapStart]
    meets [gapEnd].  On a buffer whose gap is already closed, such as
    [Gapbuffer(0)], no insertion ever reserves: [capacity()] and the
    allocations stay as they are, [gapStart] runs past [gapEnd] by one slot
    per character, and each character is stored at the old [gapStart]
    onwards. *)
Theorem X18_closed_gap_never_grows (v : list ascii) (g : Gapbuffer.t) (h : heap) :
  gapEnd g <= gapStart g ->
  let s' := insert v (g, h) in
  bufferStart (fst s') = bufferStart g /\
  gapEnd (fst s') = gapEnd g /\ bufferEnd (fst s') = bufferEnd g /\
  gapStart (fst s') = gapStart g + Z.of_nat (length v) /\
  capacity (fst s') = capacity g /\
  allocs (snd s') = allocs h.
Proof.
  intros Hgap. cbn zeta. destruct (insert_exhausted v g h Hgap) as [Hg Hal].
  rewrite Hg. unfold capacity. cbn. repeat split; try reflexivity. exact Hal.
Qed.

(** X18 on [Gapbuffer(0)]: after ["abc"] the capacity is still 0. *)
Lemma X18_closed_gap_never_grows_witness :
  let s := ctor_length 0 heap0 in
  gapEnd (fst s) <= gapStart (fst s) /\
  capacity (fst (insert (chars "abc") s)) = 0 /\
  gapStart (fst (insert (chars "abc") s)) = bufferEnd (fst s) + 3.
Proof.
  cbn zeta. pose (s := ctor_length 0 heap0).
  assert (Hg : gapEnd (fst s) <= gapStart (fst s)) by (vm_compute; discriminate).
  destruct (X18_closed_gap_never_grows (chars "abc") (fst s) (snd s) Hg)
    as (_ & _ & _ & Hgs & Hcap & _).
  split; [exact Hg |].
  split; [etransitivity; [exact Hcap | vm_compute; reflexivity] |].
  etransitivity; [exact Hgs | vm_compute; reflexivity].
Defined.

(** ** Printing *)

Lemma print_slots_app (n k : nat) p (g : Gapbuffer.t) (h : heap) :
  print_slots (n + k) p g h
  = print_slots n p g h ++ print_slots k (p + Z.of_nat n) g h.
Proof.
  revert p. induction n as [| n IH]; intros p.
  - cbn [Nat.add print_slots app]. f_equal. cbn. lia.
  - cbn [Nat.add print_slots app]. f_equal. rewrite IH. do 2 f_equal. lia.
Qed.

Lemma print_slots_content (n : nat) p (g : Gapbuffer.t) (h : heap) :
  p + Z.of_nat n <= gapStart g \/ gapEnd g < p ->
  print_slots n p g h = read_cells n p (cells h).
Proof.
  revert p. induction n as [| n IH]; intros p Hp; [reflexivity |].
  cbn [print_slots read_cells]. rewrite IH by lia. f_equal.
  destruct (Z.leb_spec (gapStart g) p), (Z.leb_spec p (gapEnd g));
    cbn [andb]; try reflexivity; lia.
Qed.

Lemma print_slots_blank (n : nat) p (g : Gapbuffer.t) (h : heap) :
  gapStart g <= p -> p + Z.of_nat n <= gapEnd g + 1 ->
  print_slots n p g h = repeat " "%char n.
Proof.
  revert p. induction n as [| n IH]; intros p Hlo Hhi; [reflexivity |].
  cbn [print_slots repeat]. rewrite IH by lia. f_equal.
  destruct (Z.leb_spec (gapStart g) p), (Z.leb_spec p (gapEnd g));
    cbn [andb]; try reflexivity; lia.
Qed.

(** X19: [operator<<] prints one character per slot between brackets:
    the left segment, then a blank for every gap slot and, because the test
    is [p <= gapEnd], also for the first slot of the right segment, then
    the rest of the right segment.  The output always has [capacity() + 2]
    characters. *)
Theorem X19_print_blanks_the_gap_and_one_more (g : Gapbuffer.t) (h : heap) :
  layout_ok g ->
  print g h
  = "["%char
      :: left_segment g h
      ++ repeat " "%char
           (Z.to_nat (Z.min (gapEnd g - gapStart g + 1) (bufferEnd g - gapStart g)))
      ++ tl (right_segment g h) ++ ["]"%char] /\
  Z.of_nat (length (print g h)) = capacity g + 2.
Proof.
  intros Hl. pose proof Hl as (H1 & H2 & H3 & H4).
  destruct (layout_ok_counters g Hl) as (_ & _ & Hcap).
  set (nl := Z.to_nat (gapStart g - bufferStart g)).
  set (nb := Z.to_nat (Z.min (gapEnd g - gapStart g + 1) (bufferEnd g - gapStart g))).
  set (nr := Z.to_nat (bufferEnd g - gapEnd g - 1)).
  assert (Htl : tl (right_segment g h) = read_cells nr (gapEnd g + 1) (cells h)).
  { unfold right_segment, right_length, nr.
    destruct (Z.eq_dec (bufferEnd g) (gapEnd g)) as [He | He].
    - rewrite He, Z.sub_diag. reflexivity.
    - replace (Z.to_nat (bufferEnd g - gapEnd g))
        with (S (Z.to_nat (bufferEnd g - gapEnd g - 1))) by lia.
      reflexivity. }
  assert (Hprint : print g h
                   = "["%char :: left_segment g h ++ repeat " "%char nb
                       ++ tl (right_segment g h) ++ ["]"%char]).
  { unfold print. f_equal.
    replace (Z.to_nat (bufferEnd g - bufferStart g)) with (nl + (nb + nr))%nat
      by (unfold nl, nb, nr; lia).
    rewrite !print_slots_app, <- !app_assoc. f_equal; [| f_equal; [| f_equal]].
    - apply print_slots_content. unfold nl. lia.
    - apply print_slots_blank; unfold nl, nb; lia.
    - rewrite Htl. destruct (Z.eq_dec (bufferEnd g) (gapEnd g)) as [He | He].
      + replace nr with O by (unfold nr; lia). reflexivity.
      + replace (bufferStart g + Z.of_nat nl + Z.of_nat nb) with (gapEnd g + 1)
          by (unfold nl, nb; lia).
        apply print_slots_content. lia. }
  split; [exact Hprint |].
  rewrite Hprint, Htl. cbn [length].
  rewrite !length_app, repeat_length, !read_cells_length. cbn [length].
  unfold left_segment. rewrite read_cells_length. fold nl.
  rewrite Hcap. unfold left_length, nl, nb, nr. lia.
Qed.

(** X19 on a 7-slot buffer with left ["ab"], a gap of three slots and
    right ["cd"]: the output is ["[ab    d]"], with ['c'] hidden. *)
Lemma X19_print_blanks_the_gap_and_one_more_witness :
  let s := retreat (retreat (insert (chars "abcd") (ctor_length 7 heap0))) in
  layout_ok (fst s) /\
  left_segment (fst s) (snd s) = chars "ab" /\
  gap_size (fst s) = 3 /\
  right_segment (fst s) (snd s) = chars "cd" /\
  print (fst s) (snd s) = chars "[ab    d]".
Proof.
  cbn zeta.
  pose (s := retreat (retreat (insert (chars "abcd") (ctor_length 7 heap0)))).
  assert (Hl : layout_ok (fst s)) by (vm_compute; intuition discriminate).
  destruct (X19_print_blanks_the_gap_and_one_more (fst s) (snd s) Hl) as [Hp _].
  split; [exact Hl |]. split; [vm_compute; reflexivity |].
  split; [vm_compute; reflexivity |]. split; [vm_compute; reflexivity |].
  etransitivity; [exact Hp | vm_compute; reflexivity].
Defined.

(** ** Lines *)

(** X20: [line(pos)] throws [out_of_range] when [pos > size()].  Otherwise
    it throws [runtime_error] whenever [empty()] holds, that is whenever the
    left segment is empty, also for a buffer that holds text with the cursor
    at its start.  In the remaining case it returns no string: the first
    step, [std::next(cbegin(), pos)], goes through an [operator+=] without a
    body. *)
Theorem X20_line_refusals
  (fuel : nat) (pos : Z) (g : Gapbuffer.t) (h : heap) :
  0 <= pos < 2 ^ 64 ->
  (size g < pos ->
   line fuel pos g h = Throw (out_of_range "index out of range")) /\
  (pos <= size g -> gapStart g = bufferStart g ->
   line fuel pos g h
   = Throw (runtime_error "Cannot pull line from empty gapvector")) /\
  (pos <= size g -> gapStart g <> bufferStart g ->
   line fuel pos g h = Undefined).
Proof.
  intros Hpos. unfold line, empty. split; [| split].
  - intros Hlt. destruct (Z.ltb_spec (size g) pos); [reflexivity | lia].
  - intros Hle Heq. destruct (Z.ltb_spec (size g) pos); [lia |].
    destruct (Z.eqb_spec (bufferStart g) (gapStart g)); [reflexivity | congruence].
  - intros Hle Hne. destruct (Z.ltb_spec (size g) pos); [lia |].
    destruct (Z.eqb_spec (bufferStart g) (gapStart g)); [congruence | reflexivity].
Qed.

(** X20 on ["ab"] with the cursor moved to the start: the buffer holds two
    characters and [line(0)] refuses it as empty. *)
Lemma X20_line_refusals_witness :
  let s := retreat (retreat (ctor_string_view (chars "ab") heap0)) in
  0 <= 0 < 2 ^ 64 /\ size (fst s) = 2 /\
  gapStart (fst s) = bufferStart (fst s) /\
  line 10 0 (fst s) (snd s)
  = Throw (runtime_error "Cannot pull line from empty gapvector") /\
  line 10 3 (fst s) (snd s) = Throw (out_of_range "index out of range").
Proof.
  cbn zeta.
  pose (s := retreat (retreat (ctor_string_view (chars "ab") heap0))).
  assert (H0 : 0 <= 0 < 2 ^ 64) by lia.
  assert (H3 : 0 <= 3 < 2 ^ 64) by lia.
  assert (Hsz : size (fst s) = 2) by (vm_compute; reflexivity).
  assert (Hg : gapStart (fst s) = bufferStart (fst s)) by (vm_compute; reflexivity).
  destruct (X20_line_refusals 10 0 (fst s) (snd s) H0) as (_ & Hempty & _).
  destruct (X20_line_refusals 10 3 (fst s) (snd s) H3) as (Hrange & _).
  split; [exact H0 |]. split; [exact Hsz |]. split; [exact Hg |].
  split; [apply Hempty; [rewrite Hsz; lia | exact Hg] |].
  apply Hrange. rewrite Hsz. lia.
Defined.

(** ** Assignment and destruction *)

(** X21: move assignment between two distinct objects releases the
    destination's own block, hands the source's four pointers to the
    destination and leaves null pointers in the source; the block handed
    over stays live and no byte changes.  Assigning an object to itself
    changes nothing. *)
Theorem X21_move_assignment_hands_the_block_over
  (this other : nat) (a o : Gapbuffer.t) (w : world) :
  objs w !! this = Some a -> objs w !! other = Some o ->
  this <> other -> bufferStart a <> bufferStart o ->
  let w' := assign_move this other w in
  objs w' !! this = Some o /\
  objs w' !! other = Some (Gapbuffer.mk nullptr nullptr nullptr nullptr) /\
  allocs (hp w') !! bufferStart o = allocs (hp w) !! bufferStart o /\
  allocs (hp w') !! bufferStart a = None /\
  cells (hp w') = cells (hp w) /\
  assign_move this this w = w.
Proof.
  intros Ha Ho Hne Hblk. cbn zeta.
  destruct (assign_move_transfers this other a o w Ha Ho Hne Hblk)
    as (H1 & H2 & H3 & H4).
  cbn zeta in *.
  split; [exact H1 |]. split; [exact H2 |]. split; [exact H3 |].
  split; [exact H4 |]. split.
  - unfold assign_move. rewrite Ha, Ho.
    rewrite bool_decide_eq_true_2 by exact Hne. reflexivity.
  - unfold assign_move. rewrite Ha.
    rewrite bool_decide_eq_false_2 by (intros Hc; apply Hc; reflexivity).
    reflexivity.
Qed.

(** X21 on two buffers ["hi"] and ["yo"] held as objects 0 and 1. *)
Lemma X21_move_assignment_hands_the_block_over_witness :
  let '(a, h1) := ctor_string_view (chars "hi") heap0 in
  let '(o, h2) := ctor_string_view (chars "yo") h1 in
  let w := mkWorld (<[1%nat := o]> (<[0%nat := a]> ∅)) h2 in
  let w' := assign_move 0 1 w in
  objs w !! 0%nat = Some a /\ objs w !! 1%nat = Some o /\
  0%nat <> 1%nat /\ bufferStart a <> bufferStart o /\
  objs w' !! 0%nat = Some o /\
  allocs (hp w') !! bufferStart o = Some 10 /\
  allocs (hp w') !! bufferStart a = None.
Proof.
  pose (s1 := ctor_string_view (chars "hi") heap0).
  pose (s2 := ctor_string_view (chars "yo") (snd s1)).
  pose (w := mkWorld (<[1%nat := fst s2]> (<[0%nat := fst s1]> ∅)) (snd s2)).
  assert (Ha : objs w !! 0%nat = Some (fst s1)) by (vm_compute; reflexivity).
  assert (Ho : objs w !! 1%nat = Some (fst s2)) by (vm_compute; reflexivity).
  assert (Hne : 0%nat <> 1%nat) by discriminate.
  assert (Hblk : bufferStart (fst s1) <> bufferStart (fst s2))
    by (vm_compute; discriminate).
  destruct (X21_move_assignment_hands_the_block_over
              0 1 (fst s1) (fst s2) w Ha Ho Hne Hblk)
    as (H1 & _ & H3 & H4 & _).
  change (objs w !! 0%nat = Some (fst s1) /\ objs w !! 1%nat = Some (fst s2) /\
          0%nat <> 1%nat /\ bufferStart (fst s1) <> bufferStart (fst s2) /\
          objs (assign_move 0 1 w) !! 0%nat = Some (fst s2) /\
          allocs (hp (assign_move 0 1 w)) !! bufferStart (fst s2) = Some 10 /\
          allocs (hp (assign_move 0 1 w)) !! bufferStart (fst s1) = None).
  split; [exact Ha |]. split; [exact Ho |]. split; [exact Hne |].
  split; [exact Hblk |]. split; [exact H1 |].
  split; [etransitivity; [exact H3 | vm_compute; reflexivity] | exact H4].
Defined.

(** X22: copy assignment between two distinct objects allocates one new
    block of the source's capacity for the destination and releases
    nothing: every block that was live stays live, the destination's
    previous one included, and the source object is unchanged.  Assigning
    an object to itself changes nothing. *)
Theorem X22_copy_assignment_releases_nothing
  (this other : nat) (a o : Gapbuffer.t) (w : world) :
  objs w !! this = Some a -> objs w !! other = Some o -> this <> other ->
  let w' := assign_copy this other w in
  allocs (hp w') = <[brk (hp w) := capacity o]> (allocs (hp w)) /\
  (bufferStart a <> brk (hp w) ->
   allocs (hp w') !! bufferStart a = allocs (hp w) !! bufferStart a) /\
  objs w' !! other = Some o /\
  (exists a', objs w' !! this = Some a' /\
              bufferStart a' = brk (hp w) /\ capacity a' = capacity o) /\
  assign_copy this this w = w.
Proof.
  intros Ha Ho Hne. cbn zeta.
  assert (Hself : assign_copy this this w = w).
  { unfold assign_copy. rewrite Ha.
    rewrite bool_decide_eq_false_2 by (intros Hc; apply Hc; reflexivity).
    reflexivity. }
  set (self := assign_copy this this w) in *.
  unfold assign_copy. rewrite Ha, Ho.
  rewrite bool_decide_eq_true_2 by exact Hne.
  cbn [allocate uninitialized_copy_n objs hp allocs fst snd].
  split; [reflexivity |]. split.
  - intros Hb. apply lookup_insert_ne. congruence.
  - split; [rewrite lookup_insert_ne by exact Hne; exact Ho |].
    split; [| exact Hself].
    eexists. split; [apply lookup_insert_eq |]. cbn. split; [reflexivity |].
    unfold capacity at 1. cbn.
    replace (brk (hp w) + capacity o - brk (hp w)) with (capacity o) by lia.
    unfold capacity, wrap64. apply Z.mod_mod. lia.
Qed.

(** X22 on two buffers ["hi"] and ["yo"] held as objects 0 and 1: after
    [b0 = b1] the 10-slot block ["hi"] lived in is still allocated. *)
Lemma X22_copy_assignment_releases_nothing_witness :
  let '(a, h1) := ctor_string_view (chars "hi") heap0 in
  let '(o, h2) := ctor_string_view (chars "yo") h1 in
  let w := mkWorld (<[1%nat := o]> (<[0%nat := a]> ∅)) h2 in
  let w' := assign_copy 0 1 w in
  objs w !! 0%nat = Some a /\ objs w !! 1%nat = Some o /\ 0%nat <> 1%nat /\
  allocs (hp w') !! bufferStart a = Some 10 /\
  (forall a', objs w' !! 0%nat = Some a' -> bufferStart a' <> bufferStart a).
Proof.
  pose (s1 := ctor_string_view (chars "hi") heap0).
  pose (s2 := ctor_string_view (chars "yo") (snd s1)).
  pose (w := mkWorld (<[1%nat := fst s2]> (<[0%nat := fst s1]> ∅)) (snd s2)).
  assert (Ha : objs w !! 0%nat = Some (fst s1)) by (vm_compute; reflexivity).
  assert (Ho : objs w !! 1%nat = Some (fst s2)) by (vm_compute; reflexivity).
  assert (Hne : 0%nat <> 1%nat) by discriminate.
  destruct (X22_copy_assignment_releases_nothing
              0 1 (fst s1) (fst s2) w Ha Ho Hne)
    as (_ & Hold & _ & (a' & Ha' & Hbs & _) & _).
  change (objs w !! 0%nat = Some (fst s1) /\ objs w !! 1%nat = Some (fst s2) /\
          0%nat <> 1%nat /\
          allocs (hp (assign_copy 0 1 w)) !! bufferStart (fst s1) = Some 10 /\
          (forall a', objs (assign_copy 0 1 w) !! 0%nat = Some a' ->
                      bufferStart a' <> bufferStart (fst s1))).
  split; [exact Ha |]. split; [exact Ho |]. split; [exact Hne |].
  split.
  - etransitivity; [apply Hold; vm_compute; discriminate | vm_compute; reflexivity].
  - intros a'' Ha''. cbn zeta in Ha'. rewrite Ha' in Ha''.
    injection Ha'' as <-. rewrite Hbs. vm_compute. discriminate.
Defined.

(** X23: a buffer built by [Gapbuffer()], [Gapbuffer(length)] or
    [Gapbuffer(std::string_view)] at a fresh address and destroyed right
    away leaves the table of live blocks exactly as it was: the destructor
    releases the one block the constructor allocated. *)
Theorem X23_construct_then_destroy_releases_the_block
  (n : Z) (str : list ascii) (h : heap) :
  allocs h !! brk h = None ->
  allocs (dtor (fst (ctor_default h)) (snd (ctor_default h))) = allocs h /\
  allocs (dtor (fst (ctor_length n h)) (snd (ctor_length n h))) = allocs h /\
  allocs (dtor (fst (ctor_string_view str h)) (snd (ctor_string_view str h)))
  = allocs h.
Proof.
  intros Hfresh. unfold dtor, deallocate, destroy_n, ctor_default, ctor_length,
    ctor_string_view.
  cbn [allocate uninitialized_value_construct_n uninitialized_move_n_from
       fst snd allocs bufferStart].
  rewrite !delete_insert_id by exact Hfresh. repeat split.
Qed.

(** X23 in the memory with nothing allocated. *)
Lemma X23_construct_then_destroy_releases_the_block_witness :
  allocs heap0 !! brk heap0 = None /\
  allocs (dtor (fst (ctor_string_view (chars "hi") heap0))
               (snd (ctor_string_view (chars "hi") heap0))) = allocs heap0.
Proof.
  assert (Hf : allocs heap0 !! brk heap0 = None) by (vm_compute; reflexivity).
  destruct (X23_construct_then_destroy_releases_the_block 0 (chars "hi") heap0 Hf)
    as (_ & _ & Hs).
  split; [exact Hf | exact Hs].
Defined.

(** ** Reverse iteration *)

(** X24: for a buffer with content, [rend()] starts from the slot of the
    first character and [rbegin()] from one past the slot of the last one,
    wherever the gap is.  [crbegin()] starts from [cbegin()] instead, so
    with a non-empty left segment [crbegin()] and [crend()] compare equal:
    the constant reverse range is empty. *)
Theorem X24_reverse_range (g : Gapbuffer.t) :
  layout_ok g -> 0 < size g ->
  ptr (current (rend g)) = subscript 0 g /\
  ptr (current (rbegin g)) = subscript (size g - 1) g + 1 /\
  current (crbegin g) = cbegin g /\
  (1 <= left_length g -> reverse_eqb (crbegin g) (crend g) = true) /\
  (1 <= left_length g -> reverse_eqb (rbegin g) (rend g) = false).
Proof.
  intros Hl Hpos. pose proof Hl as (H1 & H2 & H3 & H4).
  destruct (layout_ok_counters g Hl) as (Hsz & _ & _).
  destruct (subscript_in_range g heap0 0 Hl) as [Hs0 _]; [lia |].
  destruct (subscript_in_range g heap0 (size g - 1) Hl) as [Hs1 _]; [lia |].
  unfold left_length, right_length in *.
  split; [| split; [| split; [reflexivity | split]]].
  - rewrite Hs0. unfold rend. cbn [current ptr].
    destruct (Z.eqb_spec (gapStart g) (bufferStart g)),
      (Z.ltb_spec 0 (gapStart g - bufferStart g)); lia.
  - rewrite Hs1. unfold rbegin. cbn [current ptr].
    destruct (Z.eqb_spec (gapEnd g) (bufferEnd g)),
      (Z.ltb_spec (size g - 1) (gapStart g - bufferStart g)); lia.
  - intros Hleft. unfold reverse_eqb, crbegin, crend, cbegin. cbn [current].
    destruct (Z.eqb_spec (gapStart g) (bufferStart g)); [lia |].
    apply iter_eqb_refl.
  - intros Hleft. unfold reverse_eqb, rbegin, rend, iter_eqb. cbn [current ptr gb].
    destruct (Z.eqb_spec (gapStart g) (bufferStart g)); [lia |].
    destruct (Z.eqb_spec (gapEnd g) (bufferEnd g));
      match goal with |- (?a =? ?b) && _ && _ && _ && _ = false =>
        destruct (Z.eqb_spec a b); [lia | reflexivity] end.
Qed.

(** X24 on ["ab"] with the cursor between the letters. *)
Lemma X24_reverse_range_witness :
  let g := fst (retreat (ctor_string_view (chars "ab") heap0)) in
  layout_ok g /\ 0 < size g /\ 1 <= left_length g /\
  ptr (current (rend g)) = bufferStart g /\
  ptr (current (rbegin g)) = bufferEnd g /\
  reverse_eqb (crbegin g) (crend g) = true.
Proof.
  cbn zeta. pose (g := fst (retreat (ctor_string_view (chars "ab") heap0))).
  assert (Hl : layout_ok g) by (vm_compute; intuition discriminate).
  assert (Hp : 0 < size g) by (vm_compute; reflexivity).
  assert (Hn : 1 <= left_length g) by (vm_compute; discriminate).
  destruct (X24_reverse_range g Hl Hp) as (_ & _ & _ & Hc & _).
  split; [exact Hl |]. split; [exact Hp |]. split; [exact Hn |].
  split; [vm_compute; reflexivity |]. split; [vm_compute; reflexivity |].
  exact (Hc Hn).
Defined.
